(** * llm_tester: the conversation driver and its interactive prompts

    A shallow embedding of [llm_tester.py].  The program reads a line-oriented
    transcript, sends every question with the accumulated history to a
    chat-completion client, and writes the transcript back with freshly
    generated answers.  Before that it collects generation options from the
    operator through validated prompts.

    Conventions of the embedding:

    - a Python [str] is a list of characters ([pystr]); characters are code
      points below 256, which covers every literal of the program;
    - the terminal, the module global [requestOptions], the open output file
      and the remote client are fields of one [World] that every function
      threads; exceptions and the never-ending prompt loop are outcomes;
    - the chat-completion client and the builtins [float()], [int()] and
      [str(float)] are not code of the program: they are the variables of
      the section in which the program is defined. *)

From Stdlib Require Import String Ascii List ZArith Lia Bool.
From Stdlib Require Import Floats.PrimFloat.
From Stdlib Require Floats.FloatAxioms.
From stdpp Require Import gmap strings list.

Open Scope string_scope.
Open Scope list_scope.
Open Scope stdpp_scope.

(** ** Strings *)

Definition pystr : Type := list ascii.

(** A string literal of the program. *)
Definition str (s : string) : pystr := list_ascii_of_string s.

Definition LF : ascii := ascii_of_nat 10.
Definition CR : ascii := ascii_of_nat 13.

(** [str.isspace] on one character: the code points Python treats as
    whitespace, below 256. *)
Definition isspace (c : ascii) : bool :=
  let n := nat_of_ascii c in
  ((9 <=? n) && (n <=? 13) || (28 <=? n) && (n <=? 32) || (n =? 133) || (n =? 160))%nat.

Fixpoint lstrip (s : pystr) : pystr :=
  match s with
  | [] => []
  | c :: r => if isspace c then lstrip r else s
  end.

Definition rstrip (s : pystr) : pystr := reverse (lstrip (reverse s)).

(** [s.strip()] *)
Definition strip (s : pystr) : pystr := lstrip (rstrip s).

(** [not s.strip()]: the reply is empty or whitespace only. *)
Definition blank (s : pystr) : bool :=
  match strip s with [] => true | _ => false end.

(** [s.startswith(p)] *)
Fixpoint startswith (p s : pystr) : bool :=
  match p, s with
  | [], _ => true
  | _ :: _, [] => false
  | a :: p', b :: s' => if Ascii.eqb a b then startswith p' s' else false
  end.

(** ** Text files

    A file opened in text mode is read with universal newlines: a carriage
    return, alone or followed by a line feed, reads as one line feed (the
    carriage return reads as the line feed, and a line feed right after it
    is dropped).
    Iterating over the file yields its lines, each with its line feed, the
    last one possibly without. *)

Fixpoint translate_newlines (after_cr : bool) (s : pystr) : pystr :=
  match s with
  | [] => []
  | c :: r =>
      if Ascii.eqb c CR then LF :: translate_newlines true r
      else if Ascii.eqb c LF then
        if after_cr then translate_newlines false r
        else LF :: translate_newlines false r
      else c :: translate_newlines false r
  end.

Definition universal_newlines (s : pystr) : pystr := translate_newlines false s.

Fixpoint readlines (s : pystr) : list pystr :=
  match s with
  | [] => []
  | c :: r =>
      if Ascii.eqb c LF then [c] :: readlines r
      else match readlines r with
           | [] => [[c]]
           | l :: ls => (c :: l) :: ls
           end
  end.

(** The lines a reader gets from a file with the given content. *)
Definition file_lines (content : pystr) : list pystr :=
  readlines (universal_newlines content).

(** The content of a file after the given writes (on a platform whose line
    separator is the line feed, so that writing translates nothing). *)
Definition file_content (writes : list pystr) : pystr := concat writes.



(** ** Values, messages, exceptions *)

(** The exceptions that can leave a function of the program.  All of them are
    subclasses of Python's [Exception].  (The [ValueError] of [float()] and
    [int()] never leaves the loop that catches it: it is the [None] of the
    readers below.) *)
Inductive Exn : Type :=
| EOFError                    (* input() at the end of the input *)
| IndexError                  (* choices[0] of a response without choices *)
| AttributeError              (* .strip() on a message without content *)
| ClientError (name : pystr). (* anything the client raises: transport, API *)

(** How a call ends: it returns, it raises, or it never returns. *)
Inductive Outcome (A : Type) : Type :=
| Ret (a : A)
| Raise (e : Exn)
| Diverge.
Arguments Ret {A} a.
Arguments Raise {A} e.
Arguments Diverge {A}.

(** The values stored in the options dictionary. *)
Inductive pyval : Type :=
| VStr (s : pystr)
| VInt (n : Z)
| VFloat (x : float).

(** The message object of a response: its content may be absent. *)
Record ChatCompletionMessage : Type := {
  role : pystr;
  content : option pystr
}.

(** [ChatHistoryEntry = ChatCompletionMessage | dict[str, str]] *)
Inductive ChatHistoryEntry : Type :=
| Message (m : ChatCompletionMessage)
| Dict (d : gmap string pystr).

(** One request as the client receives it: the options and the messages. *)
Definition Request : Type := gmap string pyval * list ChatHistoryEntry.

(** What comes back: an exception, or the messages of the response's
    choices. *)
Definition Response : Type := Exn + list ChatCompletionMessage.

(** One call of the client. *)
Definition Exchange : Type := Request * Response.

(** [getMessageHistoryEntry(content, role)] *)
Definition getMessageHistoryEntry
    (content : pystr + ChatCompletionMessage) (role : pystr) : ChatHistoryEntry :=
  match content with
  | inr m => Message m
  | inl s => Dict {[ "role" := role; "content" := s ]}
  end.

(** The default of the [role] argument. *)
Definition user : pystr := str "user".

(** ** The program *)

Section Program.

(** The remote service: its state, and what one call of
    [api.chat.completions.create] with the options and the messages does to it
    and answers: an exception, or the messages of the response's choices. *)
Variable Client : Type.
Variable create :
  Client -> gmap string pyval -> list ChatHistoryEntry -> Client * Response.

(** The builtins [float(s)] and [int(s)] ([None] when they raise
    [ValueError]) and [str(x)] of a float. *)
Variable float_of_str : pystr -> option float.
Variable int_of_str : pystr -> option Z.
Variable str_of_float : float -> pystr.

(** Everything a call can read or change. *)
Record World : Type := {
  requestOptions : gmap string pyval;  (* the module global *)
  stdin : list pystr;                  (* the replies still to be typed *)
  stdout : list pystr;                 (* what was printed, oldest first *)
  outputFile : list pystr;             (* the writes to the output file *)
  client : Client;
  exchanges : list Exchange            (* the calls of the client, oldest first *)
}.

Definition set_requestOptions (o : gmap string pyval) (w : World) : World :=
  {| requestOptions := o; stdin := stdin w; stdout := stdout w;
     outputFile := outputFile w; client := client w; exchanges := exchanges w |}.

Definition set_stdin (i : list pystr) (w : World) : World :=
  {| requestOptions := requestOptions w; stdin := i; stdout := stdout w;
     outputFile := outputFile w; client := client w; exchanges := exchanges w |}.

Definition set_stdout (o : list pystr) (w : World) : World :=
  {| requestOptions := requestOptions w; stdin := stdin w; stdout := o;
     outputFile := outputFile w; client := client w; exchanges := exchanges w |}.

Definition set_outputFile (o : list pystr) (w : World) : World :=
  {| requestOptions := requestOptions w; stdin := stdin w; stdout := stdout w;
     outputFile := o; client := client w; exchanges := exchanges w |}.

Definition set_client (c : Client) (r : list Exchange) (w : World) : World :=
  {| requestOptions := requestOptions w; stdin := stdin w; stdout := stdout w;
     outputFile := outputFile w; client := c; exchanges := r |}.

(** *** The monad of the program: state and exceptions *)

Definition M (A : Type) : Type := World -> World * Outcome A.

Definition ret {A} (a : A) : M A := fun w => (w, Ret a).

Definition raise {A} (e : Exn) : M A := fun w => (w, Raise e).

Definition bind {A B} (c : M A) (k : A -> M B) : M B :=
  fun w =>
    match c w with
    | (w', Ret a) => k a w'
    | (w', Raise e) => (w', Raise e)
    | (w', Diverge) => (w', Diverge)
    end.

Notation "'let*' x ':=' c 'in' k" := (bind c (fun x => k))
  (at level 10, x name, c at level 100, k at level 200).
Notation "c ;; k" := (bind c (fun _ => k))
  (at level 100, k at level 200, right associativity).

(** [print(s)] *)
Definition print (s : pystr) : M unit :=
  fun w => (set_stdout (stdout w ++ [s ++ [LF]]) w, Ret tt).

(** [input(prompt)]: shows the prompt and returns the next reply without its
    line feed; at the end of the input it raises [EOFError]. *)
Definition input (prompt : pystr) : M pystr :=
  fun w =>
    let w1 := set_stdout (stdout w ++ [prompt]) w in
    match stdin w with
    | [] => (w1, Raise EOFError)
    | reply :: rest => (set_stdin rest w1, Ret reply)
    end.

(** [outputFile.write(s)] *)
Definition write (s : pystr) : M unit :=
  fun w => (set_outputFile (outputFile w ++ [s]) w, Ret tt).

(** *** Helper functions *)

(** [inputStringOrNull(question)] *)
Definition inputStringOrNull (question : pystr) : M (option pystr) :=
  let* reply := input (strip question ++ str " ") in
  let result := strip reply in
  match result with
  | [] => ret None
  | _ :: _ => ret (Some result)
  end.

(** [inputStringOrDefault(question, default)] *)
Definition inputStringOrDefault (question default : pystr) : M pystr :=
  let* result := inputStringOrNull question in
  match result with
  | None | Some [] => ret default
  | Some r => ret r
  end.

Definition float_message (min_value max_value : float) : pystr :=
  str "please enter a float between " ++ str_of_float min_value
  ++ str " and " ++ str_of_float max_value.

(** [result > max_value or result < min_value] *)
Definition out_of_range (min_value max_value result : float) : bool :=
  PrimFloat.ltb max_value result || PrimFloat.ltb result min_value.

(** The loop of [inputFloatBetween], by recursion on the replies still to be
    typed; [w] is the world in which the next round starts.  Every round
    that goes round again has consumed one reply.  At the end of the input,
    [input] raises [EOFError], which the [except Exception] clause catches:
    the loop prints its message and goes round again, for ever. *)
Fixpoint inputFloatBetween_loop (question : pystr) (min_value max_value : float)
    (allow_null : bool) (replies : list pystr) (w : World)
    : World * Outcome (option float) :=
  match replies with
  | [] => (w, Diverge)
  | result :: rest =>
      let w1 := set_stdin rest (set_stdout (stdout w ++ [strip question ++ str " "]) w) in
      if blank result && allow_null then (w1, Ret None)
      else
        match float_of_str result with
        | None =>
            (* ValueError, caught *)
            inputFloatBetween_loop question min_value max_value allow_null rest
              (fst (print (float_message min_value max_value) w1))
        | Some x =>
            if out_of_range min_value max_value x then
              inputFloatBetween_loop question min_value max_value allow_null rest
                (fst (print (float_message min_value max_value) w1))
            else (w1, Ret (Some x))
        end
  end.

(** [inputFloatBetween(question, min_value, max_value, allow_null)] *)
Definition inputFloatBetween (question : pystr) (min_value max_value : float)
    (allow_null : bool) : M (option float) :=
  fun w => inputFloatBetween_loop question min_value max_value allow_null (stdin w) w.

Definition int_message : pystr := str "please enter an integer (whole number)".

(** The loop of [inputInt], in the same way. *)
Fixpoint inputInt_loop (question : pystr) (allow_null : bool)
    (replies : list pystr) (w : World) : World * Outcome (option Z) :=
  match replies with
  | [] => (w, Diverge)
  | result :: rest =>
      let w1 := set_stdin rest (set_stdout (stdout w ++ [strip question ++ str " "]) w) in
      if blank result && allow_null then (w1, Ret None)
      else
        match int_of_str result with
        | None => inputInt_loop question allow_null rest (fst (print int_message w1))
        | Some n => (w1, Ret (Some n))
        end
  end.

(** [inputInt(question, allow_null)] *)
Definition inputInt (question : pystr) (allow_null : bool) : M (option Z) :=
  fun w => inputInt_loop question allow_null (stdin w) w.

(** *** The options, asked once *)

Definition get_requestOptions : M (gmap string pyval) :=
  fun w => (w, Ret (requestOptions w)).

(** [requestOptions[key] = v] *)
Definition set_option (key : string) (v : pyval) : M unit :=
  fun w => (set_requestOptions (<[key := v]> (requestOptions w)) w, Ret tt).

(** [if x is not None: requestOptions[key] = x] *)
Definition set_option_if_given {A} (key : string) (inj : A -> pyval)
    (x : option A) : M unit :=
  match x with
  | Some v => set_option key (inj v)
  | None => ret tt
  end.

Definition options_banner : pystr :=
  str "please enter options that we will pass on with each request to the LLM (all are optional)".
Definition model_question : pystr := str "ID of the model to use:".
Definition model_default : pystr := str "local-model".
Definition frequency_penalty_question : pystr :=
  str "frequency_penalty: Number between -2.0 and 2.0".
Definition max_tokens_question : pystr :=
  str "max_tokens: The maximum number of [tokens](/tokenizer) that can be generated in the chat completion".
Definition presence_penalty_question : pystr :=
  str "presence_penalty: Number between -2.0 and 2.0. Positive values penalize new tokens based on whether they appear in the text so far, increasing the model's likelihood to talk about new topics.".
Definition temperature_question : pystr :=
  str "temperature: What sampling temperature to use, between 0 and 2.0. Higher values like 0.8 will make the output more random, while lower values like 0.2 will make it more focused and deterministic.".

(** The body of [if requestOptions == {}:] *)
Definition ask_options : M unit :=
  print options_banner ;;
  let* model := inputStringOrDefault model_question model_default in
  set_option "model" (VStr model) ;;
  let* frequency_penalty :=
    inputFloatBetween frequency_penalty_question (-2.0)%float 2.0%float true in
  set_option_if_given "frequency_penalty" VFloat frequency_penalty ;;
  let* max_tokens := inputInt max_tokens_question true in
  set_option_if_given "max_tokens" VInt max_tokens ;;
  let* presence_penalty :=
    inputFloatBetween presence_penalty_question (-2.0)%float 2.0%float true in
  set_option_if_given "presence_penalty" VFloat presence_penalty ;;
  let* temperature :=
    inputFloatBetween temperature_question 0.0%float 2.0%float true in
  set_option_if_given "temperature" VFloat temperature.

(** [getRequestOptions()] *)
Definition getRequestOptions : M (gmap string pyval) :=
  let* options := get_requestOptions in
  (if (size options =? 0)%nat then ask_options else ret tt) ;;
  get_requestOptions.

(** *** The request *)

(** The call of the client: the request is sent with the messages as they
    are at that moment, the call is recorded, and the exception of the
    client, if any, is raised in the program. *)
Definition send (options : gmap string pyval) (messages : list ChatHistoryEntry)
    : M (list ChatCompletionMessage) :=
  fun w =>
    let (c, r) := create (client w) options messages in
    let w' := set_client c (exchanges w ++ [((options, messages), r)]) w in
    match r with
    | inl e => (w', Raise e)
    | inr choices => (w', Ret choices)
    end.

(** [getAnswer(api, messages)] *)
Definition getAnswer (messages : list ChatHistoryEntry) : M ChatCompletionMessage :=
  let* options := getRequestOptions in
  let* choices := send options messages in
  match choices with
  | answer :: _ => ret answer
  | [] => raise IndexError
  end.

(** *** The conversation driver *)

Definition question_prefix : pystr := str "- Q: ".
Definition answer_prefix : pystr := str "- A:".

(** The line written for an answer with the given content. *)
Definition answer_line (body : pystr) : pystr := str "- A: " ++ strip body ++ [LF].

(** [answer.content.strip()] *)
Definition content_stripped (answer : ChatCompletionMessage) : M pystr :=
  match content answer with
  | Some body => ret (strip body)
  | None => raise AttributeError
  end.

(** The body of [for line in inputFile:], from the messages so far to the
    messages after the line. *)
Definition line_step (messages : list ChatHistoryEntry) (line : pystr)
    : M (list ChatHistoryEntry) :=
  if startswith question_prefix line then
    write line ;;
    let line := strip (drop 5 line) in
    print (str "generating answer for: " ++ line) ;;
    let messages := messages ++ [getMessageHistoryEntry (inl line) user] in
    let* answer := getAnswer messages in
    let messages := messages ++ [Message answer] in
    let* text := content_stripped answer in
    write (str "- A: " ++ text ++ [LF]) ;;
    ret messages
  else if startswith answer_prefix line then
    ret messages
  else
    write line ;;
    ret messages.

Fixpoint for_lines (lines : list pystr) (messages : list ChatHistoryEntry)
    : M (list ChatHistoryEntry) :=
  match lines with
  | [] => ret messages
  | line :: rest =>
      let* messages' := line_step messages line in
      for_lines rest messages'
  end.

(** [if system_message: messages.append(...)]: neither [None] nor the empty
    string seeds the history. *)
Definition initial_messages (system_message : option pystr) : list ChatHistoryEntry :=
  match system_message with
  | Some (c :: s) => [getMessageHistoryEntry (inl (c :: s)) (str "system")]
  | _ => []
  end.

(** Opening the output file for writing leaves it empty. *)
Definition open_output : M unit := fun w => (set_outputFile [] w, Ret tt).

(** [fillOutputFileUsingConversationHistory(api, system_message, inputFile,
    outputFile)]: the input file is given by its content, the output file is
    the [outputFile] of the world (the two are different files). *)
Definition fillOutputFileUsingConversationHistory
    (system_message : option pystr) (inputFile : pystr) : M unit :=
  let messages := initial_messages system_message in
  open_output ;;
  for_lines (file_lines inputFile) messages ;;
  ret tt.

End Program.

Arguments requestOptions {Client} w.
Arguments stdin {Client} w.
Arguments stdout {Client} w.
Arguments outputFile {Client} w.
Arguments client {Client} w.
Arguments exchanges {Client} w.
Arguments set_requestOptions {Client} o w.
Arguments set_stdin {Client} i w.
Arguments set_stdout {Client} o w.
Arguments set_outputFile {Client} o w.
Arguments set_client {Client} c r w.
Arguments ret {Client A} a w.
Arguments raise {Client A} e w.
Arguments bind {Client A B} c k w.
Arguments print {Client} s w.
Arguments input {Client} prompt w.
Arguments write {Client} s w.
Arguments inputStringOrNull {Client} question w.
Arguments inputStringOrDefault {Client} question default w.
Arguments inputFloatBetween {Client} float_of_str str_of_float question min_value max_value allow_null w.
Arguments inputInt {Client} int_of_str question allow_null w.
Arguments get_requestOptions {Client} w.
Arguments set_option {Client} key v w.
Arguments content_stripped {Client} answer w.
Arguments open_output {Client} w.
Arguments ask_options {Client} float_of_str int_of_str str_of_float w.
Arguments getRequestOptions {Client} float_of_str int_of_str str_of_float w.
Arguments send {Client} create options messages w.
Arguments getAnswer {Client} create float_of_str int_of_str str_of_float messages w.
Arguments line_step {Client} create float_of_str int_of_str str_of_float messages line w.
Arguments for_lines {Client} create float_of_str int_of_str str_of_float lines messages w.
Arguments fillOutputFileUsingConversationHistory {Client} create float_of_str
  int_of_str str_of_float system_message inputFile w.

(** ** A runtime for running the program on examples

    A scripted client, and decimal readers that agree with [int()] and
    [float()] on the plain literals they accept. *)

(** The scripted client answers the calls with the entries of its script,
    in order, and raises when the script is exhausted. *)
Definition Script : Type := list Response.

Definition scripted_create (s : Script) (_ : gmap string pyval)
    (_ : list ChatHistoryEntry) : Script * Response :=
  match s with
  | [] => ([], inl (ClientError (str "script exhausted")))
  | r :: s' => (s', r)
  end.

Definition assistant (body : pystr) : ChatCompletionMessage :=
  {| role := str "assistant"; content := Some body |}.

Definition digit_value (c : ascii) : option Z :=
  let n := nat_of_ascii c in
  if ((48 <=? n) && (n <=? 57))%nat then Some (Z.of_nat (n - 48)) else None.

Fixpoint digits_value (acc : Z) (s : pystr) : option Z :=
  match s with
  | [] => Some acc
  | c :: r =>
      match digit_value c with
      | Some d => digits_value (10 * acc + d) r
      | None => None
      end
  end.

(** Decimal integers: blanks around an optional sign and one digit or more. *)
Definition decimal_int (s : pystr) : option Z :=
  match strip s with
  | [] => None
  | c :: r =>
      if Ascii.eqb c "-" then
        match r with [] => None | _ => Z.opp <$> digits_value 0 r end
      else if Ascii.eqb c "+" then
        match r with [] => None | _ => digits_value 0 r end
      else digits_value 0 (c :: r)
  end.

Definition float_of_digit (d : Z) : float :=
  match d with
  | 1%Z => 1%float | 2%Z => 2%float | 3%Z => 3%float
  | 4%Z => 4%float | 5%Z => 5%float | 6%Z => 6%float
  | 7%Z => 7%float | 8%Z => 8%float | 9%Z => 9%float
  | _ => 0%float
  end.

(** Digits before and after the point, as the integer they spell and the
    number of digits after the point; the float of the integer is computed
    along, exactly as long as the integer is below 2^53. *)
Fixpoint mantissa (seen_point : bool) (m : Z) (x : float) (k : nat) (s : pystr)
    : option (Z * float * nat) :=
  match s with
  | [] => Some (m, x, k)
  | c :: r =>
      if Ascii.eqb c "." then
        if seen_point then None else mantissa true m x k r
      else
        match digit_value c with
        | Some d =>
            mantissa seen_point (10 * m + d)
              (x * 10 + float_of_digit d)%float
              (if seen_point then S k else k) r
        | None => None
        end
  end.

Fixpoint float_pow10 (k : nat) : float :=
  match k with
  | O => 1%float
  | S k' => (10 * float_pow10 k')%float
  end.

Definition has_digit (s : pystr) : bool :=
  existsb (fun c => match digit_value c with Some _ => true | None => false end) s.

(** Plain decimal floats with few digits: there the quotient of two exact
    floats is the correctly rounded value that [float()] returns.  Longer
    literals, exponents, [inf] and [nan] are left out. *)
Definition decimal_float (s : pystr) : option float :=
  let body (negative : bool) (t : pystr) : option float :=
    if has_digit t then
      match mantissa false 0 0%float 0 t with
      | Some (m, x, k) =>
          if (m <? 2 ^ 53)%Z && (k <=? 22)%nat then
            let q := (x / float_pow10 k)%float in
            Some (if negative then (- q)%float else q)
          else None
      | None => None
      end
    else None in
  match strip s with
  | [] => None
  | c :: r =>
      if Ascii.eqb c "-" then body true r
      else if Ascii.eqb c "+" then body false r
      else body false (c :: r)
  end.

(** [str(x)] for the bounds the program prints. *)
Definition bound_str (x : float) : pystr :=
  if PrimFloat.eqb x 2.0%float then str "2.0"
  else if PrimFloat.eqb x (-2.0)%float then str "-2.0"
  else if PrimFloat.eqb x 0.0%float then str "0.0"
  else str "?".




(** ** Worlds and inputs of the examples *)

(** A world at the start of a run: nothing shown, nothing written, no
    option asked yet. *)
Definition start_world (replies : list pystr) (script : Script) : World Script :=
  {| requestOptions := ∅; stdin := replies; stdout := []; outputFile := [];
     client := script; exchanges := [] |}.

Definition options_example_world : World Script :=
  start_world
    [str ""; str "abc"; str "3.5"; str ""; str "lots"; str "-7"; str " "; str "0.75";
     str "left"] [].

(** A world in which the options were asked already, as [main] leaves it
    before it calls the driver. *)
Definition ready_world (script : Script) : World Script :=
  {| requestOptions := {[ "model" := VStr model_default ]}; stdin := [];
     stdout := []; outputFile := []; client := script; exchanges := [] |}.

Definition run_driver (system_message : option pystr) (text : pystr)
    (w : World Script) : World Script * Outcome unit :=
  fillOutputFileUsingConversationHistory scripted_create decimal_float decimal_int
    bound_str system_message text w.

Definition two_questions : pystr :=
  str "- Q: first" ++ [LF] ++ str "- Q: second" ++ [LF].

Definition two_answers : Script :=
  [inr [assistant (str "one")]; inr [assistant (str "two")]].

Definition failing_text : pystr :=
  str "# T" ++ [LF] ++ str "- Q: a" ++ [LF] ++ str "- Q: b" ++ [LF] ++ str "rest" ++ [LF].

Definition failing_script : Script :=
  [inr [assistant (str "x")]; inl (ClientError (str "timeout"))].

Definition sample_text : pystr :=
  str "# Test" ++ [LF] ++ str "- Q: What is 2+2?" ++ [LF]
  ++ str "- A: stale answer" ++ [LF] ++ [LF] ++ str "- Q: why?" ++ [LF] ++ str "bye".

Definition sample_script : Script :=
  [inr [assistant (str "4")];
   inr [assistant (str " because" ++ [LF] ++ str "it is " ++ [LF])]].

Definition sample_script_again : Script :=
  [inr [assistant (str "four")]; inr [assistant (str " no reason ")]].

Definition two_line_answer : Script :=
  [inr [assistant (str "4" ++ [LF] ++ str "more")]].

(** ** Vocabulary of the statements *)

Definition whitespace_only (s : pystr) : bool := forallb isspace s.

(** The world after one prompt was shown and one reply was read. *)
Definition prompted {Client} (question : pystr) (rest : list pystr)
    (w : World Client) : World Client :=
  set_stdin rest (set_stdout (stdout w ++ [strip question ++ str " "]) w).

(** The world after one more message was printed. *)
Definition printed {Client} (s : pystr) (w : World Client) : World Client :=
  set_stdout (stdout w ++ [s ++ [LF]]) w.

(** The part of the world that the prompts leave alone. *)
Definition same_files {Client} (w w' : World Client) : Prop :=
  requestOptions w' = requestOptions w /\ outputFile w' = outputFile w /\
  client w' = client w /\ exchanges w' = exchanges w.

(** *** Lines of a transcript *)

Definition is_question (line : pystr) : bool := startswith question_prefix line.

Definition is_answer (line : pystr) : bool :=
  negb (is_question line) && startswith answer_prefix line.

Definition is_other (line : pystr) : bool :=
  negb (is_question line) && negb (is_answer line).

(** The history entry made of a question line. *)
Definition user_entry (line : pystr) : ChatHistoryEntry :=
  getMessageHistoryEntry (inl (strip (drop 5 line))) user.

(** What the driver prints before it sends the question of a line. *)
Definition generating (line : pystr) : pystr :=
  str "generating answer for: " ++ strip (drop 5 line).

(** The content of a message that has one. *)
Definition body_of (answer : ChatCompletionMessage) : pystr :=
  match content answer with Some body => body | None => [] end.

(** The answer of a call that brought one: the message of the first
    choice. *)
Definition answer_of (call : Exchange) : option ChatCompletionMessage :=
  match snd call with
  | inr (answer :: _) => Some answer
  | _ => None
  end.

Definition answers_of (calls : list Exchange) : list ChatCompletionMessage :=
  omap answer_of calls.

(** The writes of a run over the given lines in which the questions got the
    given answers, in order. *)
Fixpoint transcript (lines : list pystr) (answers : list ChatCompletionMessage)
    : list pystr :=
  match lines with
  | [] => []
  | line :: rest =>
      if is_question line then
        match answers with
        | answer :: answers' =>
            line :: answer_line (body_of answer) :: transcript rest answers'
        | [] => line :: transcript rest []
        end
      else if is_answer line then transcript rest answers
      else line :: transcript rest answers
  end.

(** The history entries of that run: each question and its answer. *)
Fixpoint dialogue (lines : list pystr) (answers : list ChatCompletionMessage)
    : list ChatHistoryEntry :=
  match lines with
  | [] => []
  | line :: rest =>
      if is_question line then
        match answers with
        | answer :: answers' => user_entry line :: Message answer :: dialogue rest answers'
        | [] => []
        end
      else dialogue rest answers
  end.

(** The requests sent so far, oldest first. *)
Definition requests {Client} (w : World Client) : list Request :=
  map fst (exchanges w).

(** The world after a question line was written, announced and sent, the
    client has answered [r] and has moved to the state [c]. *)
Definition asked {Client} (line : pystr) (messages : list ChatHistoryEntry)
    (c : Client) (r : Response) (w : World Client) : World Client :=
  set_client c
    (exchanges w ++ [((requestOptions w, messages ++ [user_entry line]), r)])
    (printed (generating line) (set_outputFile (outputFile w ++ [line]) w)).

(** *** Lines of a text *)

Definition is_break (c : ascii) : bool := Ascii.eqb c LF || Ascii.eqb c CR.

Definition no_break (s : pystr) : bool := forallb (fun c => negb (is_break c)) s.

(** A line as a reader yields it: not empty, no carriage return, and no
    line feed before its last character. *)
Definition is_line (l : pystr) : bool :=
  match reverse l with
  | [] => false
  | c :: body => negb (Ascii.eqb c CR) && no_break body
  end.

Definition ends_with_LF (l : pystr) : bool :=
  match last l with
  | Some c => Ascii.eqb c LF
  | None => false
  end.

(** The lines of a text: each is a line, and each but the last ends with a
    line feed. *)
Inductive text_lines : list pystr -> Prop :=
| text_lines_nil : text_lines []
| text_lines_last l : is_line l = true -> text_lines [l]
| text_lines_cons l ls :
    is_line l = true -> ends_with_LF l = true -> text_lines ls -> text_lines (l :: ls).

(** Every question line has its line feed. *)
Definition questions_terminated (lines : list pystr) : bool :=
  forallb (fun l => implb (is_question l) (ends_with_LF l)) lines.

(** The lines that the write of an answer puts into the file: the line
    that begins with [- A: ], and one more for each line break within the
    stripped content. *)
Definition answer_lines (body : pystr) : list pystr := file_lines (answer_line body).

(** An answer whose further lines, if it has any, are neither question nor
    answer lines. *)
Definition plain_answer (body : pystr) : bool := forallb is_other (tail (answer_lines body)).

Definition plain_call (call : Exchange) : bool :=
  match answer_of call with
  | Some answer => plain_answer (body_of answer)
  | None => true
  end.

(** An answer without further lines: its stripped content has no line
    break. *)
Definition single_line_answer (body : pystr) : bool :=
  match tail (answer_lines body) with [] => true | _ :: _ => false end.

Definition single_line_call (call : Exchange) : bool :=
  match answer_of call with
  | Some answer => single_line_answer (body_of answer)
  | None => true
  end.

Definition all_plain (answers : list ChatCompletionMessage) : Prop :=
  Forall (fun answer => plain_answer (body_of answer) = true) answers.

Definition all_single_line (answers : list ChatCompletionMessage) : Prop :=
  Forall (fun answer => single_line_answer (body_of answer) = true) answers.

(** The lines of the output file of a run over the given lines in which
    the questions got the given answers. *)
Fixpoint rewritten (lines : list pystr) (answers : list ChatCompletionMessage)
    : list pystr :=
  match lines with
  | [] => []
  | line :: rest =>
      if is_question line then
        match answers with
        | answer :: answers' =>
            line :: answer_lines (body_of answer) ++ rewritten rest answers'
        | [] => line :: rewritten rest []
        end
      else if is_answer line then rewritten rest answers
      else line :: rewritten rest answers
  end.

(** Every question line is followed by one answer line, and by one only. *)
Inductive answered : list pystr -> Prop :=
| answered_nil : answered []
| answered_skip l ls : is_question l = false -> answered ls -> answered (l :: ls)
| answered_question q a ls :
    is_question q = true -> is_answer a = true ->
    (forall b, head ls = Some b -> is_answer b = false) ->
    answered ls -> answered (q :: a :: ls).

(** A text that is empty or ends with a line feed. *)
Definition closed (text : pystr) : Prop := text = [] \/ ends_with_LF text = true.

(** A text whose last line, if it lacks its line feed, is no question. *)
Definition settled (text : pystr) : Prop :=
  closed text \/
  exists before u,
    text = before ++ u /\ closed before /\ is_line u = true /\ is_question u = false.

(** ** The entry point

    [main] asks for the connection, the files and the system message, asks
    the options, and then creates the directory of the output file, builds
    the client and runs the driver on the two files.  These last three
    steps act on the file system and on the client library: they are the
    variable [launch] of the section, which gets what [main] has read. *)

Section Main.

Variable Client : Type.
Variable float_of_str : pystr -> option float.
Variable int_of_str : pystr -> option Z.
Variable str_of_float : float -> pystr.

(** The three last statements of [main], given the key, the base URL, the
    name of the output file, the name of the input file and the system
    message. *)
Variable launch :
  option pystr -> option pystr -> pystr -> pystr -> option pystr ->
  World Client -> World Client * Outcome unit.

Definition api_key_question : pystr :=
  str "please enter the API key (leave empty to load from environment variables): ".
Definition base_url_question : pystr :=
  str "please enter the baseUrl (leave empty to load from environment variables or to use OpenAI): ".
Definition output_file_question : pystr :=
  str "what should the name (and path) of the result file be? ".
Definition output_file_default : pystr := str "LLM TestResult.md".
Definition input_file_question : pystr :=
  str "what is the name (and path) of the test file? ".
Definition input_file_default : pystr := str "LLM Test.md".
Definition system_message_question : pystr :=
  str "what should the System message be (empty for none)? ".

(** [main()] *)
Definition main : World Client -> World Client * Outcome unit :=
  bind (inputStringOrNull api_key_question) (fun api_key =>
  bind (inputStringOrNull base_url_question) (fun base_url =>
  bind (inputStringOrDefault output_file_question output_file_default) (fun output_name =>
  bind (inputStringOrDefault input_file_question input_file_default) (fun input_name =>
  bind (inputStringOrNull system_message_question) (fun system_message =>
  bind (getRequestOptions float_of_str int_of_str str_of_float) (fun _ =>
  launch api_key base_url output_name input_name system_message)))))).

End Main.

Arguments main {Client} float_of_str int_of_str str_of_float launch w.

(** ** More vocabulary *)

(** A reply that the float prompt does not take: it is not the empty reply
    of a nullable prompt, and it is no float or a float out of the range. *)
Definition float_rejected (float_of_str : pystr -> option float)
    (min_value max_value : float) (allow_null : bool) (reply : pystr) : Prop :=
  whitespace_only reply && allow_null = false /\
  match float_of_str reply with
  | None => True
  | Some x => out_of_range min_value max_value x = true
  end.

(** A reply that the integer prompt does not take. *)
Definition int_rejected (int_of_str : pystr -> option Z) (allow_null : bool)
    (reply : pystr) : Prop :=
  whitespace_only reply && allow_null = false /\ int_of_str reply = None.

(** The histories sent with the requests of a run that starts with the
    given messages: for each question line the messages so far and the
    question, the answer joining them for the next. *)
Fixpoint histories (messages : list ChatHistoryEntry) (lines : list pystr)
    (answers : list ChatCompletionMessage) : list (list ChatHistoryEntry) :=
  match lines with
  | [] => []
  | line :: rest =>
      if is_question line then
        match answers with
        | answer :: answers' =>
            (messages ++ [user_entry line])
            :: histories (messages ++ [user_entry line; Message answer]) rest answers'
        | [] => []
        end
      else histories messages rest answers
  end.

(** The messages of the request of a call. *)
Definition history_of (call : Exchange) : list ChatHistoryEntry := snd (fst call).

(** The calls of the client made after the world [w], up to [w']. *)
Definition calls_since {Client} (w w' : World Client) : list Exchange :=
  drop (length (exchanges w)) (exchanges w').

(** What a string prompt gives for a reply: nothing for a blank reply, the
    stripped reply otherwise; and the same with a default. *)
Definition or_null (reply : pystr) : option pystr :=
  if whitespace_only reply then None else Some (strip reply).

Definition or_default (reply default : pystr) : pystr :=
  if whitespace_only reply then default else strip reply.

(** [if x is not None: d[key] = x], on the dictionary. *)
Definition put {A} (key : string) (inj : A -> pyval) (x : option A)
    (d : gmap string pyval) : gmap string pyval :=
  match x with
  | Some v => <[key := inj v]> d
  | None => d
  end.

(** The world after the five first questions of [main], the first reply
    being read already and the others being the given ones. *)
Definition after_questions {Client} (url out inp sm : pystr) (rest : list pystr)
    (w : World Client) : World Client :=
  prompted system_message_question rest
    (prompted input_file_question (sm :: rest)
       (prompted output_file_question (inp :: sm :: rest)
          (prompted base_url_question (out :: inp :: sm :: rest)
             (prompted api_key_question (url :: out :: inp :: sm :: rest) w)))).

(** ** More worlds and inputs of the examples *)

(** A reader of floats that also reads [nan], as [float()] does. *)
Definition decimal_float_or_nan (s : pystr) : option float :=
  if bool_decide (strip s = str "nan") then Some nan else decimal_float s.

Definition brief : option pystr := Some (str "be brief").

Definition notes_text : pystr :=
  str "# notes" ++ [CR; LF] ++ str "- A: old" ++ [LF] ++ str "end".

Definition plain_notes_text : pystr := str "# notes" ++ [CR; LF] ++ str "end".

(** A stand-in for the last statements of [main]: the driver on a fixed
    text, with the system message that was read. *)
Definition sample_launch (api_key base_url : option pystr)
    (output_name input_name : pystr) (system_message : option pystr)
    (w : World Script) : World Script * Outcome unit :=
  run_driver system_message sample_text w.

Definition main_replies : list pystr :=
  [str " sk-1 "; str ""; str ""; str "my test.md"; str "be brief";
   str ""; str ""; str "100"; str ""; str "0.5"].

(** * Properties *)

(** ** The builtins and the examples' runtime on small inputs *)

Example file_lines_ex :
  file_lines (str "# Test" ++ [CR; LF] ++ str "- Q: a" ++ [LF] ++ str "b" ++ [CR]
              ++ [LF; LF] ++ str "tail")
  = [str "# Test" ++ [LF]; str "- Q: a" ++ [LF]; str "b" ++ [LF]; [LF]; str "tail"].
Proof. reflexivity. Qed.

Example strip_ex : strip (str "  What is 2+2? " ++ [LF]) = str "What is 2+2?".
Proof. reflexivity. Qed.

Example decimal_float_ex :
  decimal_float (str " 3.5") = Some 3.5%float /\
  decimal_float (str "-0.25") = Some (-0.25)%float /\
  decimal_float (str "abc") = None /\
  decimal_float (str "") = None.
Proof. vm_compute. auto. Qed.

Example decimal_int_ex :
  decimal_int (str " -42 ") = Some (-42)%Z /\
  decimal_int (str "100000000000000000000000000") = Some (10 ^ 26)%Z /\
  decimal_int (str "4x") = None.
Proof. vm_compute. auto. Qed.

(** ** Stripping *)

Lemma lstrip_suffix (s : pystr) : exists spaces, s = spaces ++ lstrip s /\ whitespace_only spaces = true.
Proof.
  induction s as [|c s [sp [E H]]]; simpl.
  - by exists [].
  - destruct (isspace c) eqn:Hc.
    + exists (c :: sp). simpl. rewrite Hc, H. by rewrite <- E.
    + by exists [].
Qed.

Lemma lstrip_head (s : pystr) (c : ascii) : head (lstrip s) = Some c -> isspace c = false.
Proof.
  induction s as [|d s IH]; simpl; [done|].
  destruct (isspace d) eqn:Hd; [done|]. simpl. congruence.
Qed.

Lemma lstrip_whitespace (s : pystr) : lstrip s = [] <-> whitespace_only s = true.
Proof.
  induction s as [|c s IH]; simpl; [done|].
  destruct (isspace c); simpl; [done|]. split; discriminate.
Qed.

Lemma whitespace_only_app (s t : pystr) :
  whitespace_only (s ++ t) = whitespace_only s && whitespace_only t.
Proof. apply forallb_app. Qed.

Lemma whitespace_only_reverse (s : pystr) :
  whitespace_only (reverse s) = whitespace_only s.
Proof.
  induction s as [|c s IH]; [done|].
  rewrite reverse_cons, whitespace_only_app, IH. simpl.
  rewrite andb_true_r. apply andb_comm.
Qed.

Lemma rstrip_whitespace (s : pystr) : rstrip s = [] <-> whitespace_only s = true.
Proof.
  unfold rstrip. rewrite <- (whitespace_only_reverse s), <- lstrip_whitespace.
  split; intros H.
  - apply (f_equal reverse) in H. by rewrite reverse_involutive in H.
  - by rewrite H.
Qed.

Lemma rstrip_last (s : pystr) (c : ascii) : last (rstrip s) = Some c -> isspace c = false.
Proof.
  unfold rstrip. rewrite last_reverse. apply lstrip_head.
Qed.

Lemma strip_whitespace (s : pystr) : strip s = [] <-> whitespace_only s = true.
Proof.
  unfold strip. rewrite lstrip_whitespace. split; intros H.
  - destruct (rstrip s) as [|c r] eqn:E using rev_ind.
    + by apply rstrip_whitespace.
    + clear IHr. pose proof (rstrip_last s c) as L. rewrite E, last_snoc in L.
      rewrite whitespace_only_app in H. simpl in H.
      rewrite L in H by done. by rewrite andb_false_r in H.
  - apply rstrip_whitespace in H. by rewrite H.
Qed.

Lemma blank_whitespace (s : pystr) : blank s = whitespace_only s.
Proof.
  unfold blank. destruct (strip s) eqn:E.
  - symmetry. by apply strip_whitespace.
  - destruct (whitespace_only s) eqn:W; [|done].
    apply strip_whitespace in W. congruence.
Qed.

Lemma strip_head (s : pystr) (c : ascii) : head (strip s) = Some c -> isspace c = false.
Proof. apply lstrip_head. Qed.

Lemma strip_last (s : pystr) (c : ascii) : last (strip s) = Some c -> isspace c = false.
Proof.
  unfold strip. intros H.
  destruct (lstrip_suffix (rstrip s)) as [sp [E _]].
  apply (rstrip_last s). rewrite E.
  destruct (lstrip (rstrip s)) as [|d r] eqn:E'; [done|].
  rewrite last_app. by rewrite H.
Qed.


(** ** The monad *)

Lemma bind_returns {Client A B} (c : World Client -> World Client * Outcome A)
    (k : A -> World Client -> World Client * Outcome B) (w w' : World Client) (b : B) :
  bind c k w = (w', Ret b) ->
  exists w1 a, c w = (w1, Ret a) /\ k a w1 = (w', Ret b).
Proof.
  unfold bind. destruct (c w) as [w1 [a| |]]; [eauto | discriminate..].
Qed.

Tactic Notation "bind_inv" hyp(H) "as" ident(H1) :=
  let w1 := fresh "w" in
  let a := fresh "a" in
  apply bind_returns in H; destruct H as (w1 & a & H1 & H).

(** ** Comparisons of floats *)

Lemma SFcompare_antisym (a b : SpecFloat.spec_float) :
  SpecFloat.SFcompare b a = option_map CompOpp (SpecFloat.SFcompare a b).
Proof.
  destruct a as [[|]|[|]| |[|] m1 e1], b as [[|]|[|]| |[|] m2 e2]; try reflexivity;
    cbn [SpecFloat.SFcompare option_map]; f_equal;
    rewrite (Z.compare_antisym e1 e2); destruct (e1 ?= e2)%Z; cbn [CompOpp];
    try reflexivity.
  - rewrite CompOpp_involutive.
    by rewrite (Pos.compare_cont_antisym m2 m1 Eq).
  - by rewrite (Pos.compare_cont_antisym m1 m2 Eq).
Qed.

(** [x <= y] excludes [y < x]. *)
Lemma leb_not_ltb (x y : float) :
  PrimFloat.leb x y = true -> PrimFloat.ltb y x = false.
Proof.
  rewrite FloatAxioms.leb_spec, FloatAxioms.ltb_spec.
  unfold SpecFloat.SFleb, SpecFloat.SFltb.
  rewrite (SFcompare_antisym (FloatOps.Prim2SF x) (FloatOps.Prim2SF y)).
  by destruct (SpecFloat.SFcompare _ _) as [[| |]|].
Qed.

(** A float between the bounds passes the test of the prompt. *)
Lemma within_bounds (lo hi x : float) :
  PrimFloat.leb lo x = true -> PrimFloat.leb x hi = true ->
  out_of_range lo hi x = false.
Proof.
  intros L H. unfold out_of_range. by rewrite !leb_not_ltb.
Qed.

(** A float above the maximum or below the minimum does not. *)
Lemma beyond_bounds (lo hi x : float) :
  PrimFloat.ltb hi x = true \/ PrimFloat.ltb x lo = true ->
  out_of_range lo hi x = true.
Proof.
  unfold out_of_range. intros [-> | ->]; [done | apply orb_true_r].
Qed.
(** ** The prompts *)

Section Prompts.

Context {Client : Type}.
Variable float_of_str : pystr -> option float.
Variable int_of_str : pystr -> option Z.
Variable str_of_float : float -> pystr.

Implicit Types (w : World Client) (line question reply body : pystr).
Implicit Types (rest : list pystr).

Lemma inputStringOrNull_reply question reply rest w :
  stdin w = reply :: rest ->
  inputStringOrNull question w
  = (prompted question rest w,
     Ret (match strip reply with [] => None | _ :: _ => Some (strip reply) end)).
Proof.
  intros E. unfold inputStringOrNull, bind, input. rewrite E.
  by destruct (strip reply).
Qed.

Lemma inputStringOrDefault_reply question default reply rest w :
  stdin w = reply :: rest ->
  inputStringOrDefault question default w
  = (prompted question rest w,
     Ret (match strip reply with [] => default | _ :: _ => strip reply end)).
Proof.
  intros E. unfold inputStringOrDefault, bind.
  rewrite (inputStringOrNull_reply _ _ _ _ E).
  by destruct (strip reply).
Qed.

(** C10. At a string prompt a reply of whitespace only counts as an empty
    reply: [inputStringOrNull] returns [None] and [inputStringOrDefault]
    returns the default of the caller.  Any other reply is returned
    stripped: the result is not empty and neither begins nor ends with
    whitespace. *)
Theorem string_prompts_strip question default reply rest w :
  stdin w = reply :: rest ->
  (whitespace_only reply = true ->
     inputStringOrNull question w = (prompted question rest w, Ret None) /\
     inputStringOrDefault question default w = (prompted question rest w, Ret default))
  /\
  (whitespace_only reply = false ->
     inputStringOrNull question w
       = (prompted question rest w, Ret (Some (strip reply))) /\
     inputStringOrDefault question default w
       = (prompted question rest w, Ret (strip reply)) /\
     strip reply <> [] /\
     (forall c, head (strip reply) = Some c -> isspace c = false) /\
     (forall c, last (strip reply) = Some c -> isspace c = false)).
Proof.
  intros E.
  rewrite (inputStringOrNull_reply question _ _ _ E).
  rewrite (inputStringOrDefault_reply question default _ _ _ E).
  split; intros W.
  - apply strip_whitespace in W. by rewrite W.
  - assert (strip reply <> []) as N.
    { intros S. apply strip_whitespace in S. congruence. }
    destruct (strip reply) eqn:S; [done|]. rewrite <- S.
    repeat split; [congruence | apply strip_head | apply strip_last].
Qed.


Lemma inputFloatBetween_unfold question lo hi allow_null reply rest w :
  stdin w = reply :: rest ->
  inputFloatBetween float_of_str str_of_float question lo hi allow_null w
  = if blank reply && allow_null then (prompted question rest w, Ret None)
    else match float_of_str reply with
         | None =>
             inputFloatBetween float_of_str str_of_float question lo hi allow_null
               (printed (float_message str_of_float lo hi) (prompted question rest w))
         | Some x =>
             if out_of_range lo hi x then
               inputFloatBetween float_of_str str_of_float question lo hi allow_null
                 (printed (float_message str_of_float lo hi) (prompted question rest w))
             else (prompted question rest w, Ret (Some x))
         end.
Proof. intros E. unfold inputFloatBetween. rewrite E. reflexivity. Qed.

Lemma inputInt_unfold question allow_null reply rest w :
  stdin w = reply :: rest ->
  inputInt int_of_str question allow_null w
  = if blank reply && allow_null then (prompted question rest w, Ret None)
    else match int_of_str reply with
         | None =>
             inputInt int_of_str question allow_null
               (printed int_message (prompted question rest w))
         | Some n => (prompted question rest w, Ret (Some n))
         end.
Proof. intros E. unfold inputInt. rewrite E. reflexivity. Qed.

(** C5. The float prompt bounded by -2.0 and 2.0, nullable.  The reply
    [abc] is no float: the message is printed and the prompt comes again.
    The reply [3.5] is a float out of the range: the same.  A reply that is
    empty or whitespace only ends the prompt with [None].  A reply that
    reads as a float from -2.0 to 2.0, the bounds included, ends the prompt
    with that float.  A reply that reads as a float above 2.0 or below -2.0
    prints the message, and the prompt comes again. *)
Theorem float_prompt_validation question rest w :
  float_of_str (str "abc") = None ->
  float_of_str (str "3.5") = Some 3.5%float ->
  let ask := inputFloatBetween float_of_str str_of_float question (-2.0)%float 2.0%float true in
  let again w' := printed (float_message str_of_float (-2.0)%float 2.0%float) w' in
  (stdin w = str "abc" :: rest ->
     ask w = ask (again (prompted question rest w))) /\
  (stdin w = str "3.5" :: rest ->
     ask w = ask (again (prompted question rest w))) /\
  (forall reply, whitespace_only reply = true -> stdin w = reply :: rest ->
     ask w = (prompted question rest w, Ret None)) /\
  (forall reply x, whitespace_only reply = false -> float_of_str reply = Some x ->
     PrimFloat.leb (-2.0)%float x = true -> PrimFloat.leb x 2.0%float = true ->
     stdin w = reply :: rest ->
     ask w = (prompted question rest w, Ret (Some x))) /\
  (forall reply x, whitespace_only reply = false -> float_of_str reply = Some x ->
     PrimFloat.ltb 2.0%float x = true \/ PrimFloat.ltb x (-2.0)%float = true ->
     stdin w = reply :: rest ->
     ask w = ask (again (prompted question rest w))).
Proof.
  intros Habc H35 ask again. subst ask again. cbv beta.
  repeat split.
  - intros E. rewrite (inputFloatBetween_unfold _ _ _ _ _ _ _ E).
    by rewrite Habc.
  - intros E. rewrite (inputFloatBetween_unfold _ _ _ _ _ _ _ E).
    by rewrite H35.
  - intros reply W E. rewrite (inputFloatBetween_unfold _ _ _ _ _ _ _ E).
    by rewrite blank_whitespace, W.
  - intros reply x W F Lo Hi E. rewrite (inputFloatBetween_unfold _ _ _ _ _ _ _ E).
    by rewrite blank_whitespace, W, F, within_bounds.
  - intros reply x W F O E. rewrite (inputFloatBetween_unfold _ _ _ _ _ _ _ E).
    by rewrite blank_whitespace, W, F, beyond_bounds.
Qed.

(** C7. The integer prompt.  Whatever integer the reply reads as is
    returned as it is, without any comparison against a bound; a reply that
    is no integer prints the message and the prompt comes again; a reply
    that is empty or whitespace only, at a nullable prompt, ends it with
    [None]. *)
Theorem int_prompt_no_bounds question allow_null reply rest w :
  stdin w = reply :: rest ->
  (forall n : Z, int_of_str reply = Some n ->
     whitespace_only reply && allow_null = false ->
     inputInt int_of_str question allow_null w
     = (prompted question rest w, Ret (Some n))) /\
  (int_of_str reply = None ->
     whitespace_only reply && allow_null = false ->
     inputInt int_of_str question allow_null w
     = inputInt int_of_str question allow_null
         (printed int_message (prompted question rest w))) /\
  (whitespace_only reply = true -> allow_null = true ->
     inputInt int_of_str question allow_null w
     = (prompted question rest w, Ret None)).
Proof.
  intros E. rewrite (inputInt_unfold _ _ _ _ _ E), blank_whitespace.
  repeat split.
  - intros n -> ->. done.
  - intros -> ->. done.
  - intros -> ->. done.
Qed.

(** *** What a prompt that returns has read *)

Lemma inputFloatBetween_returns question lo hi w w' r :
  inputFloatBetween float_of_str str_of_float question lo hi true w = (w', Ret r) ->
  exists rejected final,
    stdin w = rejected ++ final :: stdin w' /\
    r = (if whitespace_only final then None else float_of_str final) /\
    same_files w w'.
Proof.
  remember (stdin w) as replies eqn:E. revert w E.
  induction replies as [|reply rest IH]; intros w E H.
  - unfold inputFloatBetween in H. rewrite <- E in H. discriminate.
  - rewrite (inputFloatBetween_unfold _ _ _ _ _ _ _ (eq_sym E)) in H.
    rewrite blank_whitespace, andb_true_r in H.
    destruct (whitespace_only reply) eqn:W.
    + injection H as <- <-. exists [], reply. simpl. rewrite W.
      repeat split; done.
    + assert (forall w0, w0 = printed (float_message str_of_float lo hi) (prompted question rest w) ->
        inputFloatBetween float_of_str str_of_float question lo hi true w0 = (w', Ret r) ->
        exists rejected final,
          reply :: rest = rejected ++ final :: stdin w' /\
          r = (if whitespace_only final then None else float_of_str final) /\
          same_files w w') as Again.
      { intros w0 -> H0.
        destruct (IH (printed (float_message str_of_float lo hi) (prompted question rest w))
                    eq_refl H0) as (rej & fin & S & R & F).
        exists (reply :: rej), fin. simpl in S. rewrite S.
        repeat split; try done; apply F. }
      destruct (float_of_str reply) as [x|] eqn:F; [|by eapply Again].
      destruct (out_of_range lo hi x); [by eapply Again|].
      injection H as <- <-. exists [], reply. simpl. rewrite W.
      repeat split; done.
Qed.

Lemma inputInt_returns question w w' r :
  inputInt int_of_str question true w = (w', Ret r) ->
  exists rejected final,
    stdin w = rejected ++ final :: stdin w' /\
    r = (if whitespace_only final then None else int_of_str final) /\
    same_files w w'.
Proof.
  remember (stdin w) as replies eqn:E. revert w E.
  induction replies as [|reply rest IH]; intros w E H.
  - unfold inputInt in H. rewrite <- E in H. discriminate.
  - rewrite (inputInt_unfold _ _ _ _ _ (eq_sym E)) in H.
    rewrite blank_whitespace, andb_true_r in H.
    destruct (whitespace_only reply) eqn:W.
    + injection H as <- <-. exists [], reply. simpl. rewrite W.
      repeat split; done.
    + destruct (int_of_str reply) as [n|] eqn:F.
      * injection H as <- <-. exists [], reply. simpl. rewrite W.
        repeat split; done.
      * destruct (IH (printed int_message (prompted question rest w)) eq_refl H)
          as (rej & fin & S & R & Fr).
        exists (reply :: rej), fin. simpl in S. rewrite S.
        repeat split; try done; apply Fr.
Qed.

Lemma inputStringOrDefault_returns question default w w' r :
  inputStringOrDefault question default w = (w', Ret r) ->
  exists reply,
    stdin w = reply :: stdin w' /\
    r = (if whitespace_only reply then default else strip reply) /\
    same_files w w'.
Proof.
  destruct (stdin w) as [|reply rest] eqn:E.
  - unfold inputStringOrDefault, inputStringOrNull, bind, input. rewrite E. discriminate.
  - rewrite (inputStringOrDefault_reply _ _ _ _ _ E). intros H.
    injection H as <- <-. exists reply. repeat split; try done.
    destruct (whitespace_only reply) eqn:W.
    + apply strip_whitespace in W. by rewrite W.
    + destruct (strip reply) eqn:S; [|done].
      apply strip_whitespace in S. congruence.
Qed.

(** *** The options *)

Lemma set_option_if_given_returns {A} key (inj : A -> pyval) (x : option A) w w' u :
  set_option_if_given Client key inj x w = (w', Ret u) ->
  requestOptions w'
    = match x with Some v => <[key := inj v]> (requestOptions w) | None => requestOptions w end
  /\ stdin w' = stdin w /\ outputFile w' = outputFile w /\ client w' = client w
  /\ exchanges w' = exchanges w.
Proof.
  destruct x; simpl; unfold set_option, ret; intros H; injection H as <- _; done.
Qed.

Lemma getRequestOptions_cached w :
  requestOptions w <> ∅ ->
  getRequestOptions float_of_str int_of_str str_of_float w = (w, Ret (requestOptions w)).
Proof.
  intros N. unfold getRequestOptions, bind, get_requestOptions.
  destruct (size (requestOptions w) =? 0)%nat eqn:S; [|done].
  apply Nat.eqb_eq, map_size_empty_iff in S. done.
Qed.

Lemma getRequestOptions_first w w' options :
  requestOptions w = ∅ ->
  getRequestOptions float_of_str int_of_str str_of_float w = (w', Ret options) ->
  exists model frequency_penalty max_tokens presence_penalty temperature r1 r2 r3 r4,
    stdin w = model :: (r1 ++ [frequency_penalty]) ++ (r2 ++ [max_tokens])
                ++ (r3 ++ [presence_penalty]) ++ (r4 ++ [temperature]) ++ stdin w' /\
    requestOptions w' = options /\
    outputFile w' = outputFile w /\ client w' = client w /\ exchanges w' = exchanges w /\
    options !! "model"
      = Some (VStr (if whitespace_only model then model_default else strip model)) /\
    options !! "frequency_penalty"
      = (if whitespace_only frequency_penalty then None
         else VFloat <$> float_of_str frequency_penalty) /\
    options !! "max_tokens"
      = (if whitespace_only max_tokens then None else VInt <$> int_of_str max_tokens) /\
    options !! "presence_penalty"
      = (if whitespace_only presence_penalty then None
         else VFloat <$> float_of_str presence_penalty) /\
    options !! "temperature"
      = (if whitespace_only temperature then None
         else VFloat <$> float_of_str temperature).
Proof.
  intros E H. unfold getRequestOptions in H.
  bind_inv H as G. unfold get_requestOptions in G. injection G as <- <-.
  rewrite E, map_size_empty in H. simpl in H.
  bind_inv H as A. unfold get_requestOptions in H. injection H as <- <-.
  unfold ask_options in A.
  bind_inv A as P. unfold print in P. injection P as <- _.
  bind_inv A as P0. apply inputStringOrDefault_returns in P0 as (model & S0 & -> & F0).
  bind_inv A as O0. unfold set_option in O0. injection O0 as <- _.
  bind_inv A as P1. apply inputFloatBetween_returns in P1 as (r1 & fp & S1 & -> & F1).
  bind_inv A as U1. apply set_option_if_given_returns in U1 as (O1 & I1 & X1 & Y1 & Z1).
  bind_inv A as P2. apply inputInt_returns in P2 as (r2 & mt & S2 & -> & F2).
  bind_inv A as U2. apply set_option_if_given_returns in U2 as (O2 & I2 & X2 & Y2 & Z2).
  bind_inv A as P3. apply inputFloatBetween_returns in P3 as (r3 & pp & S3 & -> & F3).
  bind_inv A as U3. apply set_option_if_given_returns in U3 as (O3 & I3 & X3 & Y3 & Z3).
  bind_inv A as P4. apply inputFloatBetween_returns in P4 as (r4 & te & S4 & -> & F4).
  apply set_option_if_given_returns in A as (O4 & I4 & X4 & Y4 & Z4).
  exists model, fp, mt, pp, te, r1, r2, r3, r4.
  destruct F0 as (A0&B0&C0&D0), F1 as (A1&B1&C1&D1), F2 as (A2&B2&C2&D2),
    F3 as (A3&B3&C3&D3), F4 as (A4&B4&C4&D4).
  simpl in *.
  split.
  { rewrite S0, S1, <- I1, S2, <- I2, S3, <- I3, S4, <- I4.
    by rewrite <- !app_assoc. }
  split; [done|].
  split; [congruence|]. split; [congruence|]. split; [congruence|].
  rewrite O4, A4, O3, A3, O2, A2, O1, A1, A0, E.
  destruct (whitespace_only fp), (whitespace_only mt), (whitespace_only pp),
    (whitespace_only te);
    try destruct (float_of_str fp); try destruct (int_of_str mt);
    try destruct (float_of_str pp); try destruct (float_of_str te);
    repeat split; by simplify_map_eq.
Qed.

(** C6. The options are asked once.  When the first call, made with the
    global still empty, returns, the global holds the returned dictionary,
    and from then on, in any world in which the global is untouched, a call
    returns that same dictionary and leaves the world as it is: nothing is
    shown and no reply is read.  The dictionary has the model, and for each
    nullable number the reply that ended its prompt decides: a reply that is
    empty or whitespace only leaves the key out of the dictionary, any other
    puts the number it reads as. *)
Theorem options_asked_once w w' options :
  requestOptions w = ∅ ->
  getRequestOptions float_of_str int_of_str str_of_float w = (w', Ret options) ->
  requestOptions w' = options /\
  (forall w2, requestOptions w2 = requestOptions w' ->
     getRequestOptions float_of_str int_of_str str_of_float w2 = (w2, Ret options)) /\
  exists model frequency_penalty max_tokens presence_penalty temperature r1 r2 r3 r4,
    stdin w = model :: (r1 ++ [frequency_penalty]) ++ (r2 ++ [max_tokens])
                ++ (r3 ++ [presence_penalty]) ++ (r4 ++ [temperature]) ++ stdin w' /\
    options !! "model"
      = Some (VStr (if whitespace_only model then model_default else strip model)) /\
    options !! "frequency_penalty"
      = (if whitespace_only frequency_penalty then None
         else VFloat <$> float_of_str frequency_penalty) /\
    options !! "max_tokens"
      = (if whitespace_only max_tokens then None else VInt <$> int_of_str max_tokens) /\
    options !! "presence_penalty"
      = (if whitespace_only presence_penalty then None
         else VFloat <$> float_of_str presence_penalty) /\
    options !! "temperature"
      = (if whitespace_only temperature then None
         else VFloat <$> float_of_str temperature).
Proof.
  intros E H.
  destruct (getRequestOptions_first _ _ _ E H)
    as (model & fp & mt & pp & te & r1 & r2 & r3 & r4 & S & O & _ & _ & _ & L).
  split; [done|]. split.
  - intros w2 E2. rewrite <- O, <- E2. apply getRequestOptions_cached.
    rewrite E2, O. intros N. destruct L as (L & _). by rewrite N in L.
  - exists model, fp, mt, pp, te, r1, r2, r3, r4. by split.
Qed.

Lemma getRequestOptions_returns w w' options :
  getRequestOptions float_of_str int_of_str str_of_float w = (w', Ret options) ->
  requestOptions w' = options /\ options <> ∅ /\
  outputFile w' = outputFile w /\ client w' = client w /\ exchanges w' = exchanges w.
Proof.
  intros H. destruct (decide (size (requestOptions w) = 0)) as [Z|N].
  - apply map_size_empty_iff in Z.
    destruct (getRequestOptions_first _ _ _ Z H)
      as (model & ? & ? & ? & ? & ? & ? & ? & ? & _ & O & F1 & F2 & F3 & L & _).
    repeat split; try done. intros E. by rewrite E in L.
  - assert (requestOptions w <> ∅) as N' by (by rewrite <- map_size_empty_iff).
    rewrite (getRequestOptions_cached _ N') in H. injection H as <- <-. done.
Qed.

End Prompts.

(** *** The prompts on examples *)

Lemma string_prompts_strip_witness :
  let w := start_world [str "  my key "; str "next"] [] in
  inputStringOrNull (str "key? ") w
    = (prompted (str "key? ") [str "next"] w, Ret (Some (str "my key"))).
Proof.
  intros w.
  refine (proj1 (proj2 (string_prompts_strip (str "key? ") (str "default")
    (str "  my key ") [str "next"] w eq_refl) eq_refl)).
Defined.

Lemma float_prompt_validation_witness :
  let ask := inputFloatBetween decimal_float bound_str frequency_penalty_question
               (-2.0)%float 2.0%float true in
  let again w' := printed (float_message bound_str (-2.0)%float 2.0%float) w' in
  let w := start_world [str "abc"; str "-2.5"; str "1.5"; str "left"] [] in
  let w1 := again (prompted frequency_penalty_question
                     [str "-2.5"; str "1.5"; str "left"] w) in
  let w2 := again (prompted frequency_penalty_question [str "1.5"; str "left"] w1) in
  ask w = ask w1 /\ ask w1 = ask w2 /\
  ask w2 = (prompted frequency_penalty_question [str "left"] w2, Ret (Some 1.5%float)).
Proof.
  intros ask again w w1 w2.
  assert (decimal_float (str "abc") = None) as Habc by (vm_compute; reflexivity).
  assert (decimal_float (str "3.5") = Some 3.5%float) as H35 by (vm_compute; reflexivity).
  split; [|split].
  - exact (proj1 (float_prompt_validation decimal_float bound_str
      frequency_penalty_question [str "-2.5"; str "1.5"; str "left"] w Habc H35) eq_refl).
  - refine (proj2 (proj2 (proj2 (proj2 (float_prompt_validation decimal_float bound_str
      frequency_penalty_question [str "1.5"; str "left"] w1 Habc H35))))
      (str "-2.5") (-2.5)%float _ _ (or_intror _) _); vm_compute; reflexivity.
  - refine (proj1 (proj2 (proj2 (proj2 (float_prompt_validation decimal_float bound_str
      frequency_penalty_question [str "left"] w2 Habc H35))))
      (str "1.5") 1.5%float _ _ _ _ _); vm_compute; reflexivity.
Defined.

Example float_prompt_run :
  let w := start_world [str "abc"; str "3.5"; str " "; str "left"] [] in
  let r := inputFloatBetween decimal_float bound_str (str "x: ")
             (-2.0)%float 2.0%float true w in
  snd r = Ret None /\ stdin (fst r) = [str "left"] /\
  stdout (fst r)
  = [str "x: "; str "please enter a float between -2.0 and 2.0" ++ [LF];
     str "x: "; str "please enter a float between -2.0 and 2.0" ++ [LF];
     str "x: "].
Proof. vm_compute. auto. Qed.

Lemma int_prompt_no_bounds_witness :
  let w := start_world [str "123456789012345678901234567890"; str "left"] [] in
  inputInt decimal_int max_tokens_question true w
  = (prompted max_tokens_question [str "left"] w,
     Ret (Some 123456789012345678901234567890%Z)).
Proof.
  intros w.
  refine (proj1 (int_prompt_no_bounds decimal_int max_tokens_question true
    (str "123456789012345678901234567890") [str "left"] w eq_refl) _ _ _);
    vm_compute; reflexivity.
Defined.

Lemma options_asked_once_witness :
  let r := getRequestOptions decimal_float decimal_int bound_str options_example_world in
  snd r = Ret (requestOptions (fst r)) /\
  requestOptions (fst r)
  = {[ "model" := VStr model_default; "max_tokens" := VInt (-7);
       "temperature" := VFloat 0.75%float ]} /\
  stdin (fst r) = [str "left"] /\
  getRequestOptions decimal_float decimal_int bound_str (fst r)
  = (fst r, Ret (requestOptions (fst r))).
Proof.
  intros r.
  assert (r = (fst r, Ret (requestOptions (fst r)))) as E by (vm_compute; reflexivity).
  split; [by rewrite E at 1|].
  split; [vm_compute; reflexivity|].
  split; [vm_compute; reflexivity|].
  refine (proj1 (proj2 (options_asked_once decimal_float decimal_int bound_str
    options_example_world (fst r) (requestOptions (fst r)) eq_refl E)) (fst r) eq_refl).
Defined.

(** ** The conversation driver, line by line *)

Section Driver.

Context {Client : Type}.
Variable create :
  Client -> gmap string pyval -> list ChatHistoryEntry -> Client * Response.
Variable float_of_str : pystr -> option float.
Variable int_of_str : pystr -> option Z.
Variable str_of_float : float -> pystr.

Implicit Types (w : World Client) (line body : pystr) (lines : list pystr).
Implicit Types (messages : list ChatHistoryEntry) (answer : ChatCompletionMessage).

Local Abbreviation getRequestOptions :=
  (getRequestOptions float_of_str int_of_str str_of_float).
Local Abbreviation getAnswer := (getAnswer create float_of_str int_of_str str_of_float).
Local Abbreviation line_step := (line_step create float_of_str int_of_str str_of_float).
Local Abbreviation for_lines := (for_lines create float_of_str int_of_str str_of_float).
Local Abbreviation fill :=
  (fillOutputFileUsingConversationHistory create float_of_str int_of_str str_of_float).

Lemma is_answer_startswith line :
  is_question line = false -> is_answer line = startswith answer_prefix line.
Proof. unfold is_answer. by intros ->. Qed.

Lemma line_step_other messages line w :
  is_question line = false -> is_answer line = false ->
  line_step messages line w = (set_outputFile (outputFile w ++ [line]) w, Ret messages).
Proof.
  intros Q A. rewrite (is_answer_startswith _ Q) in A.
  unfold line_step. unfold is_question in Q. by rewrite Q, A.
Qed.

Lemma line_step_answer messages line w :
  is_answer line = true -> line_step messages line w = (w, Ret messages).
Proof.
  unfold is_answer, is_question, line_step. intros A.
  apply andb_true_iff in A as [Q A]. apply negb_true_iff in Q. by rewrite Q, A.
Qed.

Lemma bind_write {B} (s : pystr) (k : unit -> World Client -> World Client * Outcome B) w :
  bind (write s) k w = k tt (set_outputFile (outputFile w ++ [s]) w).
Proof. reflexivity. Qed.

Lemma bind_print {B} (s : pystr) (k : unit -> World Client -> World Client * Outcome B) w :
  bind (print s) k w = k tt (printed s w).
Proof. reflexivity. Qed.

Lemma getAnswer_cached messages w :
  requestOptions w <> ∅ ->
  getAnswer messages w
  = (set_client (create (client w) (requestOptions w) messages).1
       (exchanges w
        ++ [((requestOptions w, messages),
             (create (client w) (requestOptions w) messages).2)]) w,
     match (create (client w) (requestOptions w) messages).2 with
     | inl e => Raise e
     | inr [] => Raise IndexError
     | inr (answer :: _) => Ret answer
     end).
Proof.
  intros N. unfold getAnswer, bind.
  rewrite (getRequestOptions_cached _ _ _ _ N). unfold send.
  destruct (create (client w) (requestOptions w) messages) as [c [e|[|a l]]]; done.
Qed.

Lemma line_step_question messages line w c answer others body :
  is_question line = true ->
  requestOptions w <> ∅ ->
  create (client w) (requestOptions w) (messages ++ [user_entry line])
    = (c, inr (answer :: others)) ->
  content answer = Some body ->
  line_step messages line w
  = (set_outputFile (outputFile w ++ [line; answer_line body])
       (asked line messages c (inr (answer :: others)) w),
     Ret (messages ++ [user_entry line; Message answer])).
Proof.
  intros Q N C B. unfold line_step. unfold is_question in Q. rewrite Q.
  rewrite bind_write, bind_print. unfold bind at 1.
  rewrite getAnswer_cached by done.
  change (create _ _ _) with (create (client w) (requestOptions w) (messages ++ [user_entry line])).
  rewrite C. cbn [fst snd]. unfold bind, content_stripped. rewrite B.
  unfold ret, write, asked, answer_line, generating, user_entry, printed,
    set_outputFile, set_client, set_stdout.
  cbn [outputFile exchanges requestOptions stdout stdin client].
  by rewrite <- !app_assoc.
Qed.

Lemma line_step_question_fails messages line w c e :
  is_question line = true ->
  requestOptions w <> ∅ ->
  create (client w) (requestOptions w) (messages ++ [user_entry line]) = (c, inl e) ->
  line_step messages line w = (asked line messages c (inl e) w, Raise e).
Proof.
  intros Q N C. unfold line_step. unfold is_question in Q. rewrite Q.
  rewrite bind_write, bind_print. unfold bind at 1.
  rewrite getAnswer_cached by done.
  change (create _ _ _) with (create (client w) (requestOptions w) (messages ++ [user_entry line])).
  by rewrite C.
Qed.

(** C9. A line that begins with [- Q:] without the space after the colon is
    neither a question nor an answer: the step writes it as it is, sends no
    request and leaves the history as it was. *)
Theorem question_without_space_is_copied messages line w :
  startswith (str "- Q:") line = true ->
  startswith (str "- Q: ") line = false ->
  line_step messages line w = (set_outputFile (outputFile w ++ [line]) w, Ret messages)
  /\ exchanges (fst (line_step messages line w)) = exchanges w
  /\ client (fst (line_step messages line w)) = client w.
Proof.
  intros P Q.
  assert (is_answer line = false) as A.
  { rewrite is_answer_startswith by done.
    unfold answer_prefix.
    destruct line as [|a [|b [|c [|d l]]]];
      cbn [startswith str list_ascii_of_string] in P |- *; try done;
      repeat match type of P with
             | context [Ascii.eqb ?x ?y] => destruct (Ascii.eqb_spec x y); [subst|done]
             end;
      done. }
  rewrite line_step_other by done. done.
Qed.

(** C2. The step on a question line, with the options already asked and a
    client that answers with a message that has content: the line is
    written as it is; the text after the five characters of the prefix,
    stripped, enters the history as a [user] entry; one request is sent with
    the whole history; the message of the answer enters the history; and the
    line [- A: ], the stripped content and a line feed is written. *)
Theorem question_line_step messages line w c answer others body :
  startswith (str "- Q: ") line = true ->
  requestOptions w <> ∅ ->
  create (client w) (requestOptions w)
    (messages ++ [Dict {[ "role" := str "user"; "content" := strip (drop 5 line) ]}])
    = (c, inr (answer :: others)) ->
  content answer = Some body ->
  exists w',
    line_step messages line w
    = (w', Ret (messages
                ++ [Dict {[ "role" := str "user"; "content" := strip (drop 5 line) ]};
                    Message answer])) /\
    outputFile w' = outputFile w ++ [line; str "- A: " ++ strip body ++ [LF]] /\
    exchanges w'
    = exchanges w
      ++ [((requestOptions w,
            messages ++ [Dict {[ "role" := str "user"; "content" := strip (drop 5 line) ]}]),
           inr (answer :: others))] /\
    client w' = c /\
    requestOptions w' = requestOptions w /\ stdin w' = stdin w.
Proof.
  intros Q N C B. eexists. split.
  - by apply (line_step_question _ _ _ _ _ _ _ Q N C B).
  - done.
Qed.

(** *** Runs over several lines *)

Lemma for_lines_cons line lines messages w :
  for_lines (line :: lines) messages w
  = match line_step messages line w with
    | (w', Ret messages') => for_lines lines messages' w'
    | (w', Raise e) => (w', Raise e)
    | (w', Diverge) => (w', Diverge)
    end.
Proof. reflexivity. Qed.

Lemma for_lines_app lines1 lines2 messages w w1 messages1 :
  for_lines lines1 messages w = (w1, Ret messages1) ->
  for_lines (lines1 ++ lines2) messages w = for_lines lines2 messages1 w1.
Proof.
  revert messages w. induction lines1 as [|line lines1 IH]; intros messages w H.
  - injection H as <- <-. done.
  - rewrite <- app_comm_cons, for_lines_cons. rewrite for_lines_cons in H.
    destruct (line_step messages line w) as [w' [m| |]]; [|done..].
    by apply IH.
Qed.

Lemma fill_unfold system_message text w :
  fill system_message text w
  = match for_lines (file_lines text) (initial_messages system_message)
            (set_outputFile [] w) with
    | (w', Ret _) => (w', Ret tt)
    | (w', Raise e) => (w', Raise e)
    | (w', Diverge) => (w', Diverge)
    end.
Proof. reflexivity. Qed.

Lemma getAnswer_returns messages w w' answer :
  getAnswer messages w = (w', Ret answer) ->
  outputFile w' = outputFile w /\
  exists request others,
    exchanges w' = exchanges w ++ [(request, inr (answer :: others))].
Proof.
  intros H. unfold getAnswer in H. bind_inv H as G.
  apply getRequestOptions_returns in G as (_ & _ & O & C & R).
  bind_inv H as S. unfold send in S.
  destruct (create (client w0) a messages) as [c [e|choices]]; [done|].
  injection S as <- <-. destruct choices as [|answer' others]; [done|].
  injection H as <- <-. cbn [outputFile exchanges set_client].
  split; [done|]. exists (a, messages), others. by rewrite R.
Qed.

Lemma line_step_question_returns messages line w w' messages' :
  is_question line = true ->
  line_step messages line w = (w', Ret messages') ->
  exists answer body request others,
    content answer = Some body /\
    messages' = messages ++ [user_entry line; Message answer] /\
    outputFile w' = outputFile w ++ [line; answer_line body] /\
    exchanges w' = exchanges w ++ [(request, inr (answer :: others))].
Proof.
  intros Q H. unfold line_step in H. unfold is_question in Q. rewrite Q in H.
  rewrite bind_write, bind_print in H. bind_inv H as G.
  apply getAnswer_returns in G as (O & request & others & R).
  bind_inv H as B. unfold content_stripped in B.
  destruct (content a) as [body|] eqn:E; [|done]. injection B as <- <-.
  rewrite bind_write in H. injection H as <- <-.
  exists a, body, request, others. split; [done|]. split.
  { unfold user_entry. by rewrite <- app_assoc. }
  cbn [outputFile exchanges set_outputFile]. rewrite O, R.
  unfold answer_line. cbn [outputFile exchanges printed set_stdout set_outputFile].
  by rewrite <- app_assoc.
Qed.

Lemma body_of_content answer body : content answer = Some body -> body_of answer = body.
Proof. unfold body_of. by intros ->. Qed.

(** A run that returns has written the transcript of its lines with the
    answers it got, one call and one answer for each question. *)
Lemma for_lines_returns lines messages w w' messages' :
  for_lines lines messages w = (w', Ret messages') ->
  exists calls,
    exchanges w' = exchanges w ++ calls /\
    length calls = length (filter is_question lines) /\
    length (answers_of calls) = length calls /\
    messages' = messages ++ dialogue lines (answers_of calls) /\
    outputFile w' = outputFile w ++ transcript lines (answers_of calls).
Proof.
  revert messages w. induction lines as [|line lines IH]; intros messages w H.
  - injection H as <- <-. exists []. simpl. by rewrite !app_nil_r.
  - rewrite for_lines_cons in H.
    destruct (line_step messages line w) as [w1 [m1| |]] eqn:S; [|done..].
    destruct (IH _ _ H) as (calls & X & L & LA & M & O).
    destruct (is_question line) eqn:Q.
    + destruct (line_step_question_returns _ _ _ _ _ Q S)
        as (answer & body & request & others & B & M1 & O1 & X1).
      exists ((request, inr (answer :: others)) :: calls).
      unfold answers_of in *. cbn [omap list_omap answer_of snd transcript dialogue].
      rewrite Q, (body_of_content _ _ B), filter_cons_True by (by rewrite Q).
      cbn [length]. rewrite LA, M, M1, O, O1, X, X1, <- !app_assoc.
      repeat split; simpl; congruence.
    + destruct (is_answer line) eqn:A.
      * rewrite line_step_answer in S by done. injection S as <- <-.
        exists calls. cbn [transcript dialogue]. rewrite Q, A.
        rewrite filter_cons_False by (rewrite Q; exact id). done.
      * rewrite line_step_other in S by done. injection S as <- <-.
        exists calls. cbn [transcript dialogue]. rewrite Q, A.
        rewrite filter_cons_False by (rewrite Q; exact id).
        cbn [outputFile exchanges set_outputFile] in O, X.
        rewrite O, <- app_assoc. done.
Qed.

(** C4 (as the code has it). An input of two question lines, no system
    message, the options already asked, a client that answers both
    requests.  The first request carries one entry, the question of the
    first line.  The second request carries three entries: the first
    question, the message of the first answer, the second question.  The
    history holds four entries only once the second answer has come back
    and was appended. *)
Theorem second_request_history text q1 q2 w c1 c2 a1 a2 o1 o2 b1 b2 :
  file_lines text = [q1; q2] ->
  is_question q1 = true -> is_question q2 = true ->
  requestOptions w <> ∅ ->
  create (client w) (requestOptions w) [user_entry q1] = (c1, inr (a1 :: o1)) ->
  content a1 = Some b1 ->
  create c1 (requestOptions w) [user_entry q1; Message a1; user_entry q2]
    = (c2, inr (a2 :: o2)) ->
  content a2 = Some b2 ->
  exists w',
    fill None text w = (w', Ret tt) /\
    requests w'
    = requests w ++ [(requestOptions w, [user_entry q1]);
                     (requestOptions w, [user_entry q1; Message a1; user_entry q2])] /\
    for_lines [q1; q2] [] (set_outputFile [] w)
    = (w', Ret [user_entry q1; Message a1; user_entry q2; Message a2]).
Proof.
  intros T Q1 Q2 N C1 B1 C2 B2.
  rewrite fill_unfold, T. cbn [initial_messages].
  rewrite for_lines_cons.
  erewrite line_step_question; [|exact Q1|exact N|exact C1|exact B1].
  rewrite for_lines_cons.
  erewrite line_step_question; [|exact Q2|exact N|exact C2|exact B2].
  eexists. split; [reflexivity|]. split; [|reflexivity].
  unfold requests, asked.
  cbn [exchanges set_outputFile set_client printed set_stdout requestOptions].
  by rewrite <- app_assoc, !map_app.
Qed.

(** C8. The request of a question line fails: the lines before it were
    processed, and the client raises on the request of the question.  The
    exception leaves the driver as it is.  The one request of the failing
    question was sent and no other.  The output file holds what was written
    until then: the writes for the lines before, and the line of the failing
    question, which is written before its request is sent.  Nothing of the
    lines after it is there, whatever they are. *)
Theorem failed_request_aborts system_message text before q after w w1 messages1 c e :
  file_lines text = before ++ q :: after ->
  for_lines before (initial_messages system_message) (set_outputFile [] w)
    = (w1, Ret messages1) ->
  is_question q = true ->
  requestOptions w1 <> ∅ ->
  create (client w1) (requestOptions w1) (messages1 ++ [user_entry q]) = (c, inl e) ->
  exists w' calls,
    fill system_message text w = (w', Raise e) /\
    outputFile w' = transcript before (answers_of calls) ++ [q] /\
    exchanges w1 = exchanges w ++ calls /\
    length calls = length (filter is_question before) /\
    exchanges w'
    = exchanges w1 ++ [((requestOptions w1, messages1 ++ [user_entry q]), inl e)] /\
    client w' = c.
Proof.
  intros T B Q N C.
  destruct (for_lines_returns _ _ _ _ _ B) as (calls & X & L & _ & _ & O).
  exists (asked q messages1 c (inl e) w1), calls.
  rewrite fill_unfold, T, (for_lines_app _ _ _ _ _ _ B), for_lines_cons.
  rewrite (line_step_question_fails _ _ _ _ _ Q N C).
  cbn [outputFile set_outputFile] in O. rewrite app_nil_l in O.
  repeat split; try done.
  unfold asked. cbn [outputFile set_outputFile set_client printed set_stdout].
  by rewrite O.
Qed.

(** *** Whole runs *)

Lemma fill_returns system_message text w w' :
  fill system_message text w = (w', Ret tt) ->
  exists calls,
    exchanges w' = exchanges w ++ calls /\
    length (answers_of calls) = length (filter is_question (file_lines text)) /\
    outputFile w' = transcript (file_lines text) (answers_of calls).
Proof.
  rewrite fill_unfold. intros H.
  destruct (for_lines (file_lines text) (initial_messages system_message)
              (set_outputFile [] w)) as [w1 [m| |]] eqn:R; [|done..].
  injection H as <-.
  destruct (for_lines_returns _ _ _ _ _ R) as (calls & X & L & LA & _ & O).
  exists calls. repeat split; [done | congruence | done].
Qed.

(** The answer lines of the input change nothing in a run. *)
Lemma for_lines_without_answers lines messages w :
  for_lines (filter (fun l => negb (is_answer l)) lines) messages w
  = for_lines lines messages w.
Proof.
  revert messages w. induction lines as [|l ls IH]; intros messages w; [done|].
  destruct (is_answer l) eqn:A.
  - rewrite filter_cons_False by (rewrite A; exact id).
    rewrite for_lines_cons, line_step_answer by done. apply IH.
  - rewrite filter_cons_True by (by rewrite A).
    rewrite !for_lines_cons. destruct (line_step messages l w) as [w1 [m| |]]; [|done..].
    apply IH.
Qed.

End Driver.

(** *** The driver on examples *)

Lemma ready_world_options script : requestOptions (ready_world script) <> ∅.
Proof. apply insert_non_empty. Qed.

(** The end-to-end scenario: the stale answer goes, the new one comes. *)
Example end_to_end :
  let r := run_driver None
             (str "# Test" ++ [LF] ++ str "- Q: What is 2+2?" ++ [LF]
              ++ str "- A: stale answer" ++ [LF])
             (ready_world [inr [assistant (str "4")]]) in
  snd r = Ret tt /\
  file_content (outputFile (fst r))
  = str "# Test" ++ [LF] ++ str "- Q: What is 2+2?" ++ [LF] ++ str "- A: 4" ++ [LF].
Proof. vm_compute. auto. Qed.

Lemma question_line_step_witness :
  let line := str "- Q:  What is 2+2? " ++ [LF] in
  let w := ready_world [inr [assistant (str " 4 " ++ [LF])]] in
  exists w',
    line_step scripted_create decimal_float decimal_int bound_str [] line w
    = (w', Ret [Dict {[ "role" := str "user"; "content" := str "What is 2+2?" ]};
                Message (assistant (str " 4 " ++ [LF]))]) /\
    outputFile w' = [line; str "- A: 4" ++ [LF]] /\
    exchanges w'
    = [((requestOptions w,
         [Dict {[ "role" := str "user"; "content" := str "What is 2+2?" ]}]),
        inr [assistant (str " 4 " ++ [LF])])] /\
    client w' = [] /\
    requestOptions w' = requestOptions w /\ stdin w' = stdin w.
Proof.
  intros line w.
  refine (question_line_step scripted_create decimal_float decimal_int bound_str
    [] line w [] (assistant (str " 4 " ++ [LF])) [] (str " 4 " ++ [LF])
    eq_refl (ready_world_options _) eq_refl eq_refl).
Defined.

Lemma second_request_history_witness :
  let q1 := str "- Q: first" ++ [LF] in
  let q2 := str "- Q: second" ++ [LF] in
  let w := ready_world two_answers in
  exists w',
    run_driver None two_questions w = (w', Ret tt) /\
    requests w'
    = requests w
      ++ [(requestOptions w, [user_entry q1]);
          (requestOptions w,
           [user_entry q1; Message (assistant (str "one")); user_entry q2])] /\
    for_lines scripted_create decimal_float decimal_int bound_str [q1; q2] []
      (set_outputFile [] w)
    = (w', Ret [user_entry q1; Message (assistant (str "one")); user_entry q2;
                Message (assistant (str "two"))]).
Proof.
  intros q1 q2 w.
  refine (second_request_history scripted_create decimal_float decimal_int bound_str
    two_questions q1 q2 w _ _ _ _ [] [] (str "one") (str "two")
    eq_refl eq_refl eq_refl (ready_world_options _) eq_refl eq_refl eq_refl eq_refl).
Defined.

(** C4 as it is stated fails: the history sent with the second request has
    three entries, not four. *)
Lemma second_request_has_three_entries :
  let r := run_driver None two_questions (ready_world two_answers) in
  (fun request : Request => length (snd request)) <$> (requests (fst r) !! 1%nat)
    = Some 3%nat /\
  (fun request : Request => length (snd request)) <$> (requests (fst r) !! 1%nat)
    <> Some 4%nat.
Proof. vm_compute. split; [reflexivity | discriminate]. Qed.

Lemma failed_request_aborts_witness :
  let before := [str "# T" ++ [LF]; str "- Q: a" ++ [LF]] in
  let q := str "- Q: b" ++ [LF] in
  let w := ready_world failing_script in
  let messages1 := [user_entry (str "- Q: a" ++ [LF]); Message (assistant (str "x"))] in
  let w1 := fst (for_lines scripted_create decimal_float decimal_int bound_str
                   before [] (set_outputFile [] w)) in
  exists w' calls,
    run_driver None failing_text w = (w', Raise (ClientError (str "timeout"))) /\
    outputFile w' = transcript before (answers_of calls) ++ [q] /\
    exchanges w1 = exchanges w ++ calls /\
    length calls = length (filter is_question before) /\
    exchanges w'
    = exchanges w1
      ++ [((requestOptions w1, messages1 ++ [user_entry q]),
           inl (ClientError (str "timeout")))] /\
    client w' = [].
Proof.
  intros before q w messages1 w1.
  refine (failed_request_aborts scripted_create decimal_float decimal_int bound_str
    None failing_text before q [str "rest" ++ [LF]] w w1 messages1 []
    (ClientError (str "timeout")) eq_refl _ eq_refl _ eq_refl).
  - vm_compute. reflexivity.
  - apply insert_non_empty.
Defined.

Example failed_request_output :
  let r := run_driver None failing_text (ready_world failing_script) in
  snd r = Raise (ClientError (str "timeout")) /\
  outputFile (fst r)
  = [str "# T" ++ [LF]; str "- Q: a" ++ [LF]; str "- A: x" ++ [LF]; str "- Q: b" ++ [LF]] /\
  length (exchanges (fst r)) = 2%nat.
Proof. vm_compute. auto. Qed.

Lemma question_without_space_is_copied_witness :
  let line := str "- Q:text" ++ [LF] in
  let w := ready_world [inr [assistant (str "unused")]] in
  let step := line_step scripted_create decimal_float decimal_int bound_str [] line w in
  step = (set_outputFile [line] w, Ret []) /\
  exchanges (fst step) = [] /\
  client (fst step) = [inr [assistant (str "unused")]].
Proof.
  intros line w.
  refine (question_without_space_is_copied scripted_create decimal_float decimal_int
    bound_str [] line w eq_refl eq_refl).
Defined.

(** ** Texts and their lines *)

Lemma LF_not_CR : Ascii.eqb LF CR = false.
Proof. reflexivity. Qed.

Lemma LF_is_LF : Ascii.eqb LF LF = true.
Proof. reflexivity. Qed.

Ltac step := cbn [translate_newlines readlines app forallb no_break]; rewrite ?LF_not_CR, ?LF_is_LF.

Lemma is_break_false (c : ascii) :
  is_break c = false -> Ascii.eqb c LF = false /\ Ascii.eqb c CR = false.
Proof. unfold is_break. by intros [-> ->]%orb_false_elim. Qed.

Lemma translate_newlines_app_LF (b : bool) (s t : pystr) :
  translate_newlines b (s ++ LF :: t)
  = translate_newlines b (s ++ [LF]) ++ translate_newlines false t.
Proof.
  revert b. induction s as [|c s IH]; intros b; step.
  - by destruct b.
  - destruct (Ascii.eqb c CR); [by rewrite IH|].
    destruct (Ascii.eqb c LF); [destruct b|]; by rewrite IH.
Qed.

Lemma translate_newlines_snoc_LF (b : bool) (s : pystr) :
  (b = true /\ s = [] /\ translate_newlines b (s ++ [LF]) = []) \/
  exists t, translate_newlines b (s ++ [LF]) = t ++ [LF].
Proof.
  revert b. induction s as [|c s IH]; intros b; step.
  - destruct b; [by left | right; by exists []].
  - right. destruct (Ascii.eqb c CR).
    { destruct (IH true) as [(_ & -> & E)|[t E]].
      - exists []. by step.
      - exists (LF :: t). by rewrite E. }
    assert (exists t, translate_newlines false (s ++ [LF]) = t ++ [LF]) as [t E].
    { by destruct (IH false) as [(? & _)|?]. }
    destruct (Ascii.eqb c LF); [destruct b|].
    + exists t. by rewrite E.
    + exists (LF :: t). by rewrite E.
    + exists (c :: t). by rewrite E.
Qed.

Lemma translate_newlines_no_break (p s : pystr) :
  no_break p = true ->
  translate_newlines false (p ++ s) = p ++ translate_newlines false s.
Proof.
  induction p as [|c p IH]; step; [done|].
  intros [B P]%andb_true_iff. apply negb_true_iff, is_break_false in B as [-> ->].
  by rewrite IH.
Qed.

Lemma translate_newlines_no_CR (b : bool) (s : pystr) :
  forallb (fun c => negb (Ascii.eqb c CR)) (translate_newlines b s) = true.
Proof.
  revert b. induction s as [|c s IH]; intros b; step; [done|].
  destruct (Ascii.eqb c CR) eqn:C; step; [apply IH|].
  destruct (Ascii.eqb c LF); [destruct b|]; step; rewrite ?C; apply IH.
Qed.

Lemma translate_newlines_nil (s : pystr) :
  translate_newlines false s = [] -> s = [].
Proof.
  destruct s as [|c s]; step; [done|].
  destruct (Ascii.eqb c CR); [done|]. by destruct (Ascii.eqb c LF).
Qed.

Lemma readlines_nil (s : pystr) : readlines s = [] -> s = [].
Proof.
  destruct s as [|c s]; step; [done|].
  destruct (Ascii.eqb c LF); [done|]. by destruct (readlines s).
Qed.

Lemma readlines_app_LF (s t : pystr) :
  readlines (s ++ LF :: t) = readlines (s ++ [LF]) ++ readlines t.
Proof.
  induction s as [|c s IH]; step; [done|].
  destruct (Ascii.eqb c LF); [by rewrite IH|].
  rewrite IH. destruct (readlines (s ++ [LF])) as [|l ls] eqn:E; [|done].
  apply readlines_nil in E. by destruct s.
Qed.

(** A prefix without line feed goes to the first line of what follows. *)
Lemma readlines_prefix (p s : pystr) :
  forallb (fun c => negb (Ascii.eqb c LF)) p = true ->
  readlines (p ++ s)
  = match readlines s with
    | [] => match p with [] => [] | _ => [p] end
    | l :: ls => (p ++ l) :: ls
    end.
Proof.
  induction p as [|c p IH]; step.
  - intros _. by destruct (readlines s).
  - intros [C P]%andb_true_iff. apply negb_true_iff in C. rewrite C, (IH P).
    destruct (readlines s); [by destruct p | done].
Qed.

Lemma no_break_no_LF (p : pystr) :
  no_break p = true -> forallb (fun c => negb (Ascii.eqb c LF)) p = true.
Proof.
  induction p as [|c p IH]; step; [done|].
  intros [B P]%andb_true_iff. apply negb_true_iff, is_break_false in B as [-> _].
  by rewrite IH.
Qed.

Lemma no_break_app (s t : pystr) : no_break (s ++ t) = no_break s && no_break t.
Proof. apply forallb_app. Qed.

Lemma no_break_reverse (s : pystr) : no_break (reverse s) = no_break s.
Proof.
  induction s as [|c s IH]; [done|].
  rewrite reverse_cons, no_break_app, IH. cbn [no_break forallb].
  rewrite andb_true_r. apply andb_comm.
Qed.

Lemma is_line_snoc (l : pystr) :
  is_line l = true <->
  exists p c, l = p ++ [c] /\ no_break p = true /\ Ascii.eqb c CR = false.
Proof.
  unfold is_line. split.
  - destruct (reverse l) as [|c body] eqn:E; [done|].
    intros [C B]%andb_true_iff. exists (reverse body), c.
    rewrite no_break_reverse, <- reverse_cons, <- E, reverse_involutive.
    by apply negb_true_iff in C.
  - intros (p & c & -> & B & C). rewrite reverse_snoc, C, no_break_reverse. done.
Qed.

Lemma ends_with_LF_snoc (l : pystr) :
  ends_with_LF l = true <-> exists p, l = p ++ [LF].
Proof.
  unfold ends_with_LF. split.
  - destruct (last l) as [c|] eqn:E; [|done].
    apply last_Some in E as [p ->]. intros C. apply Ascii.eqb_eq in C as ->. by exists p.
  - intros [p ->]. by rewrite last_snoc.
Qed.

Lemma file_lines_app (c s : pystr) :
  ends_with_LF c = true -> file_lines (c ++ s) = file_lines c ++ file_lines s.
Proof.
  intros [p ->]%ends_with_LF_snoc. unfold file_lines, universal_newlines.
  rewrite <- app_assoc. cbn [app]. rewrite translate_newlines_app_LF.
  destruct (translate_newlines_snoc_LF false p) as [(? & _)|[t ->]]; [done|].
  rewrite <- app_assoc. cbn [app]. apply readlines_app_LF.
Qed.

Lemma file_lines_line (l : pystr) : is_line l = true -> file_lines l = [l].
Proof.
  intros (p & c & -> & B & C)%is_line_snoc. unfold file_lines, universal_newlines.
  rewrite translate_newlines_no_break by done.
  assert (translate_newlines false [c] = [c]) as ->.
  { step. rewrite C. by destruct (Ascii.eqb c LF) eqn:L; [apply Ascii.eqb_eq in L as ->|]. }
  rewrite readlines_prefix by (by apply no_break_no_LF).
  assert (readlines [c] = [[c]]) as ->.
  { step. by destruct (Ascii.eqb c LF) eqn:L; [apply Ascii.eqb_eq in L as ->|]. }
  done.
Qed.

Lemma is_line_cons (c : ascii) (l : pystr) :
  is_break c = false -> is_line l = true -> is_line (c :: l) = true.
Proof.
  intros B (p & x & -> & P & X)%is_line_snoc. apply is_line_snoc.
  exists (c :: p), x. cbn [no_break forallb]. rewrite B. done.
Qed.

Lemma ends_with_LF_cons (c : ascii) (l : pystr) :
  l <> [] -> ends_with_LF (c :: l) = ends_with_LF l.
Proof. unfold ends_with_LF. destruct l; [done|]. by rewrite last_cons_cons. Qed.

Lemma is_line_not_nil (l : pystr) : is_line l = true -> l <> [].
Proof. intros (p & x & -> & _)%is_line_snoc E. by destruct p. Qed.

Lemma readlines_text_lines (s : pystr) :
  forallb (fun c => negb (Ascii.eqb c CR)) s = true -> text_lines (readlines s).
Proof.
  induction s as [|c s IH]; step; [constructor|].
  intros [C S]%andb_true_iff. apply negb_true_iff in C. specialize (IH S).
  destruct (Ascii.eqb c LF) eqn:L.
  - apply Ascii.eqb_eq in L as ->. by apply text_lines_cons.
  - assert (is_break c = false) as B by (unfold is_break; by rewrite L, C).
    destruct (readlines s) as [|l ls].
    + apply text_lines_last. unfold is_line. by rewrite reverse_singleton, C.
    + inversion IH as [|l' I|l' ls' I E T]; subst.
      * apply text_lines_last. by apply is_line_cons.
      * apply text_lines_cons; [by apply is_line_cons| |done].
        rewrite ends_with_LF_cons; [done | by apply is_line_not_nil].
Qed.

Lemma file_lines_text_lines (text : pystr) : text_lines (file_lines text).
Proof. apply readlines_text_lines, translate_newlines_no_CR. Qed.

(** *** The writes of a run, read back as lines *)

Lemma file_content_cons (l : pystr) (ls : list pystr) :
  file_content (l :: ls) = l ++ file_content ls.
Proof. reflexivity. Qed.

Lemma answer_line_ends (body : pystr) : ends_with_LF (answer_line body) = true.
Proof.
  apply ends_with_LF_snoc. exists (str "- A: " ++ strip body).
  unfold answer_line. by rewrite <- app_assoc.
Qed.

Lemma file_lines_chunk (l rest : pystr) :
  is_line l = true -> ends_with_LF l = true \/ rest = [] ->
  file_lines (l ++ rest) = l :: file_lines rest.
Proof.
  intros I [E| ->].
  - by rewrite file_lines_app, file_lines_line.
  - by rewrite app_nil_r, file_lines_line.
Qed.

Lemma file_lines_answer (body rest : pystr) :
  file_lines (answer_line body ++ rest) = answer_lines body ++ file_lines rest.
Proof. apply file_lines_app, answer_line_ends. Qed.

Lemma questions_terminated_cons (l : pystr) (ls : list pystr) :
  questions_terminated (l :: ls) = true ->
  (is_question l = true -> ends_with_LF l = true) /\ questions_terminated ls = true.
Proof.
  unfold questions_terminated. cbn [forallb]. intros [I T]%andb_true_iff.
  split; [|done]. intros Q. by rewrite Q in I.
Qed.

(** The lines of the output file are the rewritten input lines. *)
Lemma file_lines_transcript (lines : list pystr) (answers : list ChatCompletionMessage) :
  text_lines lines -> questions_terminated lines = true ->
  file_lines (file_content (transcript lines answers)) = rewritten lines answers.
Proof.
  intros T. revert answers.
  induction T as [|l I|l ls I E T IH]; intros answers Q; [done| |].
  - apply questions_terminated_cons in Q as [Q _].
    cbn [transcript rewritten]. destruct (is_question l) eqn:Ql.
    + destruct answers as [|answer answers].
      * rewrite file_content_cons. apply file_lines_chunk; auto.
      * rewrite !file_content_cons, file_lines_chunk, file_lines_answer by auto.
        done.
    + destruct (is_answer l); [done|].
      rewrite file_content_cons. apply file_lines_chunk; auto.
  - apply questions_terminated_cons in Q as [_ Q].
    cbn [transcript rewritten]. destruct (is_question l) eqn:Ql.
    + destruct answers as [|answer answers].
      * rewrite file_content_cons, file_lines_chunk, IH by auto. done.
      * rewrite !file_content_cons, file_lines_chunk, file_lines_answer, IH by auto.
        done.
    + destruct (is_answer l); [by apply IH|].
      rewrite file_content_cons, file_lines_chunk, IH by auto. done.
Qed.

(** *** The lines of an answer *)

Lemma answer_lines_first (body : pystr) :
  exists first further,
    answer_lines body = first :: further /\
    is_answer first = true /\ is_question first = false /\ is_other first = false.
Proof.
  unfold answer_lines, answer_line, file_lines, universal_newlines.
  rewrite translate_newlines_no_break by reflexivity.
  rewrite readlines_prefix by reflexivity.
  destruct (readlines (translate_newlines false (strip body ++ [LF]))) as [|l ls] eqn:E.
  - apply readlines_nil, translate_newlines_nil in E. by destruct (strip body).
  - exists (str "- A: " ++ l), ls. repeat split; reflexivity.
Qed.

Lemma is_other_false_question (l : pystr) : is_other l = true -> is_question l = false.
Proof. unfold is_other. intros [Q _]%andb_true_iff. by apply negb_true_iff in Q. Qed.

Lemma is_other_false_answer (l : pystr) : is_other l = true -> is_answer l = false.
Proof. unfold is_other. intros [_ A]%andb_true_iff. by apply negb_true_iff in A. Qed.

Lemma is_question_not_answer (l : pystr) : is_question l = true -> is_answer l = false.
Proof. unfold is_answer. by intros ->. Qed.

Lemma is_question_not_other (l : pystr) : is_question l = true -> is_other l = false.
Proof. unfold is_other. by intros ->. Qed.

Lemma is_answer_not_question (l : pystr) : is_answer l = true -> is_question l = false.
Proof. unfold is_answer. intros [Q _]%andb_true_iff. by apply negb_true_iff in Q. Qed.

Lemma is_answer_not_other (l : pystr) : is_answer l = true -> is_other l = false.
Proof. unfold is_other. intros ->. by rewrite andb_false_r. Qed.

(** *** The rewritten lines *)

Lemma filter_true (P : pystr -> bool) (l : pystr) (ls : list pystr) :
  P l = true -> filter P (l :: ls) = l :: filter P ls.
Proof. intros H. apply filter_cons_True. by rewrite H. Qed.

Lemma filter_false (P : pystr -> bool) (l : pystr) (ls : list pystr) :
  P l = false -> filter P (l :: ls) = filter P ls.
Proof. intros H. apply filter_cons_False. rewrite H. exact id. Qed.

Lemma filter_none (P Q : pystr -> bool) (ls : list pystr) :
  (forall l, Q l = true -> P l = false) -> forallb Q ls = true -> filter P ls = [].
Proof.
  intros PQ. induction ls as [|l ls IH]; cbn [forallb]; [done|].
  intros [H F]%andb_true_iff. rewrite filter_false by auto. auto.
Qed.

Lemma filter_all (P : pystr -> bool) (ls : list pystr) :
  forallb P ls = true -> filter P ls = ls.
Proof.
  induction ls as [|l ls IH]; cbn [forallb]; [done|].
  intros [H F]%andb_true_iff. rewrite filter_true by done. by rewrite IH.
Qed.

Lemma answer_lines_filters (body : pystr) :
  plain_answer body = true ->
  filter is_question (answer_lines body) = [] /\
  length (filter is_answer (answer_lines body)) = 1 /\
  filter is_other (answer_lines body) = tail (answer_lines body).
Proof.
  unfold plain_answer.
  destruct (answer_lines_first body) as (first & further & -> & A & Q & O).
  cbn [tail]. intros P.
  rewrite (filter_false is_question), (filter_true is_answer), (filter_false is_other)
    by done.
  rewrite (filter_none is_question is_other), (filter_none is_answer is_other),
    filter_all; auto using is_other_false_question, is_other_false_answer.
Qed.

Lemma single_line_plain (body : pystr) :
  single_line_answer body = true -> plain_answer body = true.
Proof.
  unfold single_line_answer, plain_answer. by destruct (tail (answer_lines body)).
Qed.

Lemma rewritten_questions (lines : list pystr) (answers : list ChatCompletionMessage) :
  all_plain answers ->
  filter is_question (rewritten lines answers) = filter is_question lines.
Proof.
  revert answers. induction lines as [|l ls IH]; intros answers P; [done|].
  cbn [rewritten]. destruct (is_question l) eqn:Q.
  - rewrite (filter_true _ l ls) by done. destruct answers as [|answer answers].
    + rewrite filter_true by done. by rewrite IH.
    + inversion P as [|? ? Pa Ps]; subst.
      rewrite filter_true, filter_app by done.
      destruct (answer_lines_filters _ Pa) as (-> & _). by rewrite IH.
  - rewrite (filter_false _ l ls) by done. destruct (is_answer l); [by apply IH|].
    rewrite filter_false by done. by apply IH.
Qed.

Lemma rewritten_answers (lines : list pystr) (answers : list ChatCompletionMessage) :
  all_plain answers -> length answers = length (filter is_question lines) ->
  length (filter is_answer (rewritten lines answers)) = length (filter is_question lines).
Proof.
  revert answers. induction lines as [|l ls IH]; intros answers P L; [done|].
  cbn [rewritten]. destruct (is_question l) eqn:Q.
  - rewrite (filter_true _ l ls) in L |- * by done.
    destruct answers as [|answer answers]; [done|].
    inversion P as [|? ? Pa Ps]; subst. injection L as L.
    rewrite filter_false, filter_app, length_app by (by apply is_question_not_answer).
    destruct (answer_lines_filters _ Pa) as (_ & -> & _). cbn [length].
    by rewrite IH.
  - rewrite (filter_false _ l ls) in L |- * by done.
    destruct (is_answer l) eqn:A; [by apply IH|].
    rewrite filter_false by done. by apply IH.
Qed.

Lemma rewritten_others (lines : list pystr) (answers : list ChatCompletionMessage) :
  all_plain answers ->
  filter is_other lines `sublist_of` filter is_other (rewritten lines answers).
Proof.
  revert answers. induction lines as [|l ls IH]; intros answers P; [done|].
  cbn [rewritten]. destruct (is_question l) eqn:Q.
  - rewrite (filter_false _ l ls) by (by apply is_question_not_other).
    destruct answers as [|answer answers].
    + rewrite filter_false by (by apply is_question_not_other). by apply IH.
    + inversion P as [|? ? Pa Ps]; subst.
      rewrite filter_false, filter_app by (by apply is_question_not_other).
      apply sublist_inserts_l. by apply IH.
  - destruct (is_answer l) eqn:A.
    + rewrite filter_false by (by apply is_answer_not_other). by apply IH.
    + assert (is_other l = true) as O by (unfold is_other; by rewrite Q, A).
      rewrite !filter_true by done. apply sublist_skip. by apply IH.
Qed.

Lemma rewritten_others_single (lines : list pystr) (answers : list ChatCompletionMessage) :
  all_single_line answers ->
  filter is_other (rewritten lines answers) = filter is_other lines.
Proof.
  revert answers. induction lines as [|l ls IH]; intros answers P; [done|].
  cbn [rewritten]. destruct (is_question l) eqn:Q.
  - rewrite (filter_false _ l ls) by (by apply is_question_not_other).
    destruct answers as [|answer answers].
    + rewrite filter_false by (by apply is_question_not_other). by apply IH.
    + inversion P as [|? ? Pa Ps]; subst.
      rewrite filter_false, filter_app by (by apply is_question_not_other).
      destruct (answer_lines_filters _ (single_line_plain _ Pa)) as (_ & _ & ->).
      unfold single_line_answer in Pa.
      destruct (tail (answer_lines (body_of answer))); [|done]. by apply IH.
  - destruct (is_answer l) eqn:A.
    + rewrite filter_false by (by apply is_answer_not_other). by apply IH.
    + assert (is_other l = true) as O by (unfold is_other; by rewrite Q, A).
      rewrite !filter_true by done. f_equal. by apply IH.
Qed.

Lemma all_single_line_plain (answers : list ChatCompletionMessage) :
  all_single_line answers -> all_plain answers.
Proof.
  intros H. eapply Forall_impl; [exact H|]. intros answer. apply single_line_plain.
Qed.

Lemma head_rewritten (lines : list pystr) (answers : list ChatCompletionMessage) (b : pystr) :
  head (rewritten lines answers) = Some b -> is_answer b = false.
Proof.
  revert answers. induction lines as [|l ls IH]; intros answers; [done|].
  cbn [rewritten]. destruct (is_question l) eqn:Q.
  - destruct answers; cbn [head]; intros [= <-]; by apply is_question_not_answer.
  - destruct (is_answer l) eqn:A; [apply IH|]. cbn [head]. by intros [= <-].
Qed.

Lemma answered_others (further rest : list pystr) :
  forallb is_other further = true -> answered rest -> answered (further ++ rest).
Proof.
  induction further as [|l further IH]; cbn [forallb app]; [done|].
  intros [O F]%andb_true_iff R.
  apply answered_skip; [by apply is_other_false_question | by apply IH].
Qed.

Lemma head_others_app (further rest : list pystr) (b : pystr) :
  forallb is_other further = true ->
  (forall b', head rest = Some b' -> is_answer b' = false) ->
  head (further ++ rest) = Some b -> is_answer b = false.
Proof.
  destruct further as [|l further]; cbn [forallb app head]; [auto|].
  intros [O _]%andb_true_iff _ [= <-]. by apply is_other_false_answer.
Qed.

Lemma rewritten_answered (lines : list pystr) (answers : list ChatCompletionMessage) :
  all_plain answers -> length answers = length (filter is_question lines) ->
  answered (rewritten lines answers).
Proof.
  revert answers. induction lines as [|l ls IH]; intros answers P L; [constructor|].
  cbn [rewritten]. destruct (is_question l) eqn:Q.
  - rewrite (filter_true _ l ls) in L by done.
    destruct answers as [|answer answers]; [done|].
    inversion P as [|? ? Pa Ps]; subst. injection L as L.
    unfold plain_answer in Pa.
    destruct (answer_lines_first (body_of answer)) as (first & further & E & A & _).
    rewrite E in Pa |- *.
    cbn [tail app] in Pa |- *. apply answered_question; try done.
    + intros b. apply head_others_app; [done|]. intros b'. apply head_rewritten.
    + apply answered_others; [done|]. by apply IH.
  - rewrite (filter_false _ l ls) in L by done.
    destruct (is_answer l) eqn:A; [by apply IH|].
    apply answered_skip; [done|]. by apply IH.
Qed.

Lemma answered_lookup (out : list pystr) :
  answered out ->
  forall (i : nat) (q : pystr),
    out !! i = Some q -> is_question q = true ->
    exists a, out !! S i = Some a /\ is_answer a = true /\
              forall b, out !! S (S i) = Some b -> is_answer b = false.
Proof.
  induction 1 as [|l ls Q A IH|q0 a ls Q0 Aa Hd A IH]; intros i q E Q'.
  - done.
  - destruct i as [|i]; cbn [lookup list_lookup] in E.
    + injection E as ->. congruence.
    + apply (IH i q E Q').
  - destruct i as [|[|i]]; cbn [lookup list_lookup] in E.
    + exists a. split; [done|]. split; [done|].
      intros b Hb. apply Hd. by rewrite head_lookup.
    + injection E as ->. apply is_answer_not_question in Aa. congruence.
    + apply (IH i q E Q').
Qed.

(** *** The end of the written text *)

Lemma ends_with_LF_app (s t : pystr) :
  ends_with_LF t = true -> ends_with_LF (s ++ t) = true.
Proof.
  intros [p ->]%ends_with_LF_snoc. apply ends_with_LF_snoc. exists (s ++ p).
  by rewrite app_assoc.
Qed.

Lemma closed_app (s t : pystr) : closed s -> closed t -> closed (s ++ t).
Proof.
  intros S [->|T]; [by rewrite app_nil_r | right; by apply ends_with_LF_app].
Qed.

Lemma readlines_snoc_LF (t : pystr) : forallb ends_with_LF (readlines (t ++ [LF])) = true.
Proof.
  induction t as [|c t IH]; step; [done|].
  destruct (Ascii.eqb c LF) eqn:C.
  - apply Ascii.eqb_eq in C as ->. cbn [forallb]. by rewrite IH.
  - destruct (readlines (t ++ [LF])) as [|l ls] eqn:R.
    { apply readlines_nil in R. by destruct t. }
    cbn [forallb] in IH |- *. apply andb_true_iff in IH as [E F].
    rewrite ends_with_LF_cons, E, F; [done|]. intros ->. done.
Qed.

Lemma closed_file_lines (text : pystr) :
  closed text -> forallb ends_with_LF (file_lines text) = true.
Proof.
  intros [->|[p ->]%ends_with_LF_snoc]; [done|].
  unfold file_lines, universal_newlines.
  destruct (translate_newlines_snoc_LF false p) as [(? & _)|[t ->]]; [done|].
  apply readlines_snoc_LF.
Qed.

Lemma terminated_questions (lines : list pystr) :
  forallb ends_with_LF lines = true -> questions_terminated lines = true.
Proof.
  unfold questions_terminated. induction lines as [|l ls IH]; cbn [forallb]; [done|].
  intros [-> F]%andb_true_iff. rewrite IH by done. by destruct (is_question l).
Qed.

Lemma settled_questions_terminated (text : pystr) :
  settled text -> questions_terminated (file_lines text) = true.
Proof.
  intros [C|(before & u & -> & C & I & Q)].
  - by apply terminated_questions, closed_file_lines.
  - assert (file_lines (before ++ u) = file_lines before ++ [u]) as ->.
    { destruct C as [->|E]; [exact (file_lines_line u I)|].
      by rewrite file_lines_app, (file_lines_line u). }
    unfold questions_terminated. rewrite forallb_app. cbn [forallb].
    rewrite Q. cbn [implb]. rewrite andb_true_r.
    by apply terminated_questions, closed_file_lines.
Qed.

Lemma settled_app (s t : pystr) : closed s -> settled t -> settled (s ++ t).
Proof.
  intros S [T|(before & u & -> & C & I & Q)].
  - left. by apply closed_app.
  - right. exists (s ++ before), u. rewrite app_assoc. repeat split; try done.
    by apply closed_app.
Qed.

(** What a run has written is a settled text, whatever the answers were. *)
Lemma transcript_settled (lines : list pystr) (answers : list ChatCompletionMessage) :
  text_lines lines -> length answers = length (filter is_question lines) ->
  settled (file_content (transcript lines answers)).
Proof.
  intros T. revert answers.
  assert (forall l ls answers,
    is_question l = true -> length answers = length (filter is_question (l :: ls)) ->
    (forall answers', length answers' = length (filter is_question ls) ->
       settled (file_content (transcript ls answers'))) ->
    settled (file_content (transcript (l :: ls) answers))) as Question.
  { intros l ls answers Q L IH. cbn [transcript]. rewrite Q.
    rewrite (filter_true _ l ls) in L by done.
    destruct answers as [|answer answers]; [done|]. injection L as L.
    rewrite !file_content_cons, app_assoc. apply settled_app; [|by apply IH].
    right. apply ends_with_LF_app, answer_line_ends. }
  induction T as [|l I|l ls I E T IH]; intros answers L.
  - left. by left.
  - destruct (is_question l) eqn:Q.
    { apply Question; try done. intros answers' _. left. by left. }
    cbn [transcript]. rewrite Q. destruct (is_answer l); [left; by left|].
    right. exists [], l. rewrite file_content_cons. cbn [file_content concat].
    rewrite app_nil_r. repeat split; try done. by left.
  - destruct (is_question l) eqn:Q.
    { apply Question; try done. }
    rewrite (filter_false _ l ls) in L by done.
    cbn [transcript]. rewrite Q. destruct (is_answer l); [by apply IH|].
    rewrite file_content_cons. apply settled_app; [by right | by apply IH].
Qed.

(** *** Lines put together again *)

Lemma text_lines_filter (P : pystr -> bool) (lines : list pystr) :
  text_lines lines -> text_lines (filter P lines).
Proof.
  induction 1 as [|l I|l ls I E T IH].
  - constructor.
  - destruct (P l) eqn:Pl; [rewrite filter_true by done | rewrite filter_false by done].
    + by apply text_lines_last.
    + constructor.
  - destruct (P l) eqn:Pl; [rewrite filter_true by done | rewrite filter_false by done].
    + by apply text_lines_cons.
    + done.
Qed.

Lemma file_lines_file_content (lines : list pystr) :
  text_lines lines -> file_lines (file_content lines) = lines.
Proof.
  induction 1 as [|l I|l ls I E T IH]; [done| |];
    rewrite file_content_cons, file_lines_chunk by auto; [done|by rewrite IH].
Qed.

Lemma plain_calls (calls : list Exchange) :
  forallb plain_call calls = true -> all_plain (answers_of calls).
Proof.
  unfold all_plain, answers_of, plain_call.
  induction calls as [|call calls IH]; cbn [forallb omap list_omap]; [constructor|].
  intros [P F]%andb_true_iff. destruct (answer_of call); [constructor|]; auto.
Qed.

Lemma single_line_calls (calls : list Exchange) :
  forallb single_line_call calls = true -> all_single_line (answers_of calls).
Proof.
  unfold all_single_line, answers_of, single_line_call.
  induction calls as [|call calls IH]; cbn [forallb omap list_omap]; [constructor|].
  intros [P F]%andb_true_iff. destruct (answer_of call); [constructor|]; auto.
Qed.

(** *** The lines that are no answer lines, as one list *)

Lemma rewritten_without_answers (lines : list pystr)
    (answers : list ChatCompletionMessage) :
  all_single_line answers ->
  filter (fun l => negb (is_answer l)) (rewritten lines answers)
  = filter (fun l => negb (is_answer l)) lines.
Proof.
  revert answers. induction lines as [|l ls IH]; intros answers P; [done|].
  cbn [rewritten]. destruct (is_question l) eqn:Q.
  - pose proof (is_question_not_answer _ Q) as A.
    rewrite (filter_cons_True _ l ls) by (by rewrite A).
    destruct answers as [|answer answers].
    + rewrite filter_cons_True by (by rewrite A). by rewrite IH.
    + inversion P as [|? ? Pa Ps]; subst.
      rewrite filter_cons_True, filter_app by (by rewrite A).
      unfold single_line_answer in Pa.
      destruct (answer_lines_first (body_of answer)) as (first & further & E & Af & _).
      rewrite E in Pa |- *. cbn [tail] in Pa. destruct further; [|done].
      rewrite filter_cons_False by (rewrite Af; exact id).
      rewrite filter_nil. cbn [app]. by rewrite IH.
  - destruct (is_answer l) eqn:A.
    + rewrite filter_cons_False by (rewrite A; exact id). by apply IH.
    + rewrite !filter_cons_True by (by rewrite A). by rewrite IH.
Qed.

Lemma rewritten_keeps_lines (lines : list pystr)
    (answers : list ChatCompletionMessage) :
  filter (fun l => negb (is_answer l)) lines
  `sublist_of` filter (fun l => negb (is_answer l)) (rewritten lines answers).
Proof.
  revert answers. induction lines as [|l ls IH]; intros answers; [done|].
  cbn [rewritten]. destruct (is_question l) eqn:Q.
  - pose proof (is_question_not_answer _ Q) as A.
    rewrite (filter_cons_True _ l ls) by (by rewrite A).
    destruct answers as [|answer answers].
    + rewrite filter_cons_True by (by rewrite A). apply sublist_skip, IH.
    + rewrite filter_cons_True, filter_app by (by rewrite A).
      apply sublist_skip, sublist_inserts_l, IH.
  - destruct (is_answer l) eqn:A.
    + rewrite filter_cons_False by (rewrite A; exact id). apply IH.
    + rewrite !filter_cons_True by (by rewrite A). apply sublist_skip, IH.
Qed.

(** ** The output file, line by line *)

Section Files.

Context {Client Client' : Type}.
Variable create :
  Client -> gmap string pyval -> list ChatHistoryEntry -> Client * Response.
Variable create' :
  Client' -> gmap string pyval -> list ChatHistoryEntry -> Client' * Response.
Variable float_of_str : pystr -> option float.
Variable int_of_str : pystr -> option Z.
Variable str_of_float : float -> pystr.

Local Abbreviation fill :=
  (fillOutputFileUsingConversationHistory create float_of_str int_of_str str_of_float).
Local Abbreviation fill' :=
  (fillOutputFileUsingConversationHistory create' float_of_str int_of_str str_of_float).

(** The input without its answer lines is the same run. *)
Lemma fill_without_answers system_message text (w : World Client) :
  fill system_message
    (file_content (filter (fun l => negb (is_answer l)) (file_lines text))) w
  = fill system_message text w.
Proof.
  rewrite !fill_unfold, file_lines_file_content
    by apply text_lines_filter, file_lines_text_lines.
  by rewrite for_lines_without_answers.
Qed.

(** C1 (as the code has it). A run that returns, over an input whose
    question lines all end with their line feed, with answers whose further
    lines, where the stripped content has line breaks, are neither question
    nor answer lines.  Then the lines of the output are the lines of the
    input, in their order, with each question line followed by the lines of
    its answer and with the answer lines of the input left out
    ([rewritten]); there are as many answers as question lines.  So the
    lines of the input that are no answer lines, questions and others as
    one list, come in the output in their order, and when no answer has a
    line break they are all the lines of the output that are no answer
    lines.  The question lines of the output are those of the input, in
    order; every question line of the output is followed by an answer line,
    and the line after that is no answer line; the output has as many
    answer lines as the input has question lines; and the answer lines of
    the input count for nothing: the run over the input without them ends
    in the same world. *)
Theorem rewritten_transcript system_message text (w w' : World Client) :
  fill system_message text w = (w', Ret tt) ->
  questions_terminated (file_lines text) = true ->
  forallb plain_call (drop (length (exchanges w)) (exchanges w')) = true ->
  let input := file_lines text in
  let output := file_lines (file_content (outputFile w')) in
  let calls := drop (length (exchanges w)) (exchanges w') in
  output = rewritten input (answers_of calls) /\
  length (answers_of calls) = length (filter is_question input) /\
  filter (fun l => negb (is_answer l)) input
  `sublist_of` filter (fun l => negb (is_answer l)) output /\
  (forallb single_line_call calls = true ->
   filter (fun l => negb (is_answer l)) output
   = filter (fun l => negb (is_answer l)) input) /\
  filter is_question output = filter is_question input /\
  (forall (i : nat) (q : pystr),
     output !! i = Some q -> is_question q = true ->
     exists a, output !! S i = Some a /\ is_answer a = true /\
               forall b, output !! S (S i) = Some b -> is_answer b = false) /\
  length (filter is_answer output) = length (filter is_question input) /\
  filter is_other input `sublist_of` filter is_other output /\
  fill system_message
    (file_content (filter (fun l => negb (is_answer l)) input)) w
  = (w', Ret tt).
Proof.
  intros R T P input output calls. subst input output calls.
  destruct (fill_returns _ _ _ _ _ _ _ _ R) as (calls & X & L & O).
  rewrite X, drop_app_length in P |- *. pose proof (plain_calls _ P) as P'.
  rewrite O, file_lines_transcript by (done || apply file_lines_text_lines).
  split; [done|].
  split; [done|].
  split; [apply rewritten_keeps_lines|].
  split; [intros S; by apply rewritten_without_answers, single_line_calls|].
  split; [by apply rewritten_questions|].
  split; [by apply answered_lookup, rewritten_answered|].
  split; [by apply rewritten_answers|].
  split; [by apply rewritten_others|].
  by rewrite fill_without_answers.
Qed.

(** C3 (as the code has it). A second run over the output file of a first
    run, whatever the answers of the first run were, with answers in the
    second run whose stripped content has no line break.  Then the lines of
    the output of the second run that are no answer lines, questions and
    others as one list, are those of the file it read: the same lines in
    the same order, none twice and none moved.  The output of the second
    run is the file it read with each question line followed by the line
    of its new answer and with the old answer lines left out
    ([rewritten]).  So it has the question lines of the file it read, in
    order, and its lines that are neither question nor answer lines, in
    order and no others; every question line is followed by an answer line,
    and the line after that is no answer line; and there are as many answer
    lines as question lines. *)
Theorem rerun_keeps_lines system_message text (w1 w1' : World Client)
    system_message' (w2 w2' : World Client') :
  fill system_message text w1 = (w1', Ret tt) ->
  fill' system_message' (file_content (outputFile w1')) w2 = (w2', Ret tt) ->
  forallb single_line_call (drop (length (exchanges w2)) (exchanges w2')) = true ->
  let first := file_lines (file_content (outputFile w1')) in
  let second := file_lines (file_content (outputFile w2')) in
  let calls := drop (length (exchanges w2)) (exchanges w2') in
  filter (fun l => negb (is_answer l)) second
  = filter (fun l => negb (is_answer l)) first /\
  second = rewritten first (answers_of calls) /\
  length (answers_of calls) = length (filter is_question first) /\
  filter is_question second = filter is_question first /\
  filter is_other second = filter is_other first /\
  (forall (i : nat) (q : pystr),
     second !! i = Some q -> is_question q = true ->
     exists a, second !! S i = Some a /\ is_answer a = true /\
               forall b, second !! S (S i) = Some b -> is_answer b = false) /\
  length (filter is_answer second) = length (filter is_question first).
Proof.
  intros R1 R2 P first second calls. subst first second calls.
  destruct (fill_returns _ _ _ _ _ _ _ _ R1) as (calls1 & _ & L1 & O1).
  destruct (fill_returns _ _ _ _ _ _ _ _ R2) as (calls2 & X2 & L2 & O2).
  rewrite X2, drop_app_length in P |- *. apply single_line_calls in P.
  assert (questions_terminated (file_lines (file_content (outputFile w1'))) = true) as T.
  { rewrite O1. apply settled_questions_terminated, transcript_settled;
      [apply file_lines_text_lines | done]. }
  rewrite O2, file_lines_transcript by (done || apply file_lines_text_lines).
  pose proof (all_single_line_plain _ P) as P'.
  split; [by apply rewritten_without_answers|].
  split; [done|].
  split; [done|].
  split; [by apply rewritten_questions|].
  split; [by apply rewritten_others_single|].
  split; [by apply answered_lookup, rewritten_answered|].
  by apply rewritten_answers.
Qed.

End Files.

(** *** The output file on examples *)

Example sample_output :
  file_content (outputFile (fst (run_driver None sample_text (ready_world sample_script))))
  = str "# Test" ++ [LF] ++ str "- Q: What is 2+2?" ++ [LF] ++ str "- A: 4" ++ [LF]
    ++ [LF] ++ str "- Q: why?" ++ [LF] ++ str "- A: because" ++ [LF] ++ str "it is" ++ [LF]
    ++ str "bye".
Proof. vm_compute. reflexivity. Qed.

Lemma rewritten_transcript_witness :
  let w := ready_world sample_script in
  let w' := fst (run_driver None sample_text w) in
  let input := file_lines sample_text in
  let output := file_lines (file_content (outputFile w')) in
  let calls := drop (length (exchanges w)) (exchanges w') in
  output = rewritten input (answers_of calls) /\
  length (answers_of calls) = length (filter is_question input) /\
  filter (fun l => negb (is_answer l)) input
  `sublist_of` filter (fun l => negb (is_answer l)) output /\
  (forallb single_line_call calls = true ->
   filter (fun l => negb (is_answer l)) output
   = filter (fun l => negb (is_answer l)) input) /\
  filter is_question output = filter is_question input /\
  (forall (i : nat) (q : pystr),
     output !! i = Some q -> is_question q = true ->
     exists a, output !! S i = Some a /\ is_answer a = true /\
               forall b, output !! S (S i) = Some b -> is_answer b = false) /\
  length (filter is_answer output) = length (filter is_question input) /\
  filter is_other input `sublist_of` filter is_other output /\
  run_driver None (file_content (filter (fun l => negb (is_answer l)) input)) w
  = (w', Ret tt).
Proof.
  intros w w'.
  refine (rewritten_transcript scripted_create decimal_float decimal_int bound_str
    None sample_text w w' _ _ _); vm_compute; reflexivity.
Defined.

(** C1 as it is stated fails: an answer whose second line begins with
    [- Q: ] puts a question line into the output that the input has not. *)
Lemma answer_with_question_line :
  let text := str "- Q: What is 2+2?" ++ [LF] in
  let script := [inr [assistant (str "4" ++ [LF] ++ str "- Q: and 3+3?")]] in
  let r := run_driver None text (ready_world script) in
  snd r = Ret tt /\
  file_content (outputFile (fst r))
  = str "- Q: What is 2+2?" ++ [LF] ++ str "- A: 4" ++ [LF] ++ str "- Q: and 3+3?" ++ [LF] /\
  length (filter is_question (file_lines (file_content (outputFile (fst r))))) = 2%nat /\
  length (filter is_question (file_lines text)) = 1%nat /\
  length (filter is_question (file_lines (file_content (outputFile (fst r)))))
  <> length (filter is_question (file_lines text)).
Proof. vm_compute. repeat split; discriminate. Qed.

(** A last question line without its line feed gets its answer on the same
    line of the output: no answer line follows it. *)
Example unterminated_question :
  let r := run_driver None (str "- Q: hi") (ready_world [inr [assistant (str "ok")]]) in
  snd r = Ret tt /\
  file_lines (file_content (outputFile (fst r))) = [str "- Q: hi- A: ok" ++ [LF]] /\
  filter is_answer (file_lines (file_content (outputFile (fst r)))) = [].
Proof. vm_compute. auto. Qed.

Lemma rerun_keeps_lines_witness :
  let w1' := fst (run_driver None sample_text (ready_world sample_script)) in
  let w2 := ready_world sample_script_again in
  let w2' := fst (run_driver None (file_content (outputFile w1')) w2) in
  let first := file_lines (file_content (outputFile w1')) in
  let second := file_lines (file_content (outputFile w2')) in
  let calls := drop (length (exchanges w2)) (exchanges w2') in
  filter (fun l => negb (is_answer l)) second
  = filter (fun l => negb (is_answer l)) first /\
  second = rewritten first (answers_of calls) /\
  length (answers_of calls) = length (filter is_question first) /\
  filter is_question second = filter is_question first /\
  filter is_other second = filter is_other first /\
  (forall (i : nat) (q : pystr),
     second !! i = Some q -> is_question q = true ->
     exists a, second !! S i = Some a /\ is_answer a = true /\
               forall b, second !! S (S i) = Some b -> is_answer b = false) /\
  length (filter is_answer second) = length (filter is_question first).
Proof.
  intros w1' w2 w2'.
  refine (rerun_keeps_lines scripted_create scripted_create decimal_float decimal_int
    bound_str None sample_text (ready_world sample_script) w1' None w2 w2' _ _ _);
    vm_compute; reflexivity.
Defined.

(** C3 as it is stated fails: the second line of an answer stays in the
    file as a line that is neither question nor answer, and the second run
    adds the second line of its own answer to it. *)
Lemma rerun_duplicates_answer_lines :
  let text := str "- Q: a" ++ [LF] in
  let first := run_driver None text (ready_world two_line_answer) in
  let second := run_driver None (file_content (outputFile (fst first)))
                  (ready_world two_line_answer) in
  snd first = Ret tt /\ snd second = Ret tt /\
  filter is_other (file_lines (file_content (outputFile (fst first))))
  = [str "more" ++ [LF]] /\
  filter is_other (file_lines (file_content (outputFile (fst second))))
  = [str "more" ++ [LF]; str "more" ++ [LF]] /\
  filter is_other (file_lines (file_content (outputFile (fst second))))
  <> filter is_other (file_lines (file_content (outputFile (fst first)))).
Proof. vm_compute. repeat split; discriminate. Qed.

(** * Further properties *)

(** ** The numeric prompts *)

Section MorePrompts.

Context {Client : Type}.
Variable float_of_str : pystr -> option float.
Variable int_of_str : pystr -> option Z.
Variable str_of_float : float -> pystr.

Implicit Types (w : World Client) (question reply : pystr) (rest : list pystr).

Local Abbreviation ask_float :=
  (inputFloatBetween float_of_str str_of_float).
Local Abbreviation ask_int := (inputInt int_of_str).

(** X1. What the float prompt returns.  When it returns, it has read some
    replies that it did not take and then one that it took.  It returns
    [None] only at a nullable prompt, for a reply that is empty or
    whitespace only; otherwise it returns the float the last reply reads
    as, and that float is not above the maximum and not below the minimum.
    It has shown one prompt for each reply and one message for each reply
    not taken, and has touched nothing but the terminal. *)
Theorem float_prompt_result question lo hi allow_null w w' r :
  ask_float question lo hi allow_null w = (w', Ret r) ->
  exists rejected final,
    stdin w = rejected ++ final :: stdin w' /\
    Forall (float_rejected float_of_str lo hi allow_null) rejected /\
    match r with
    | None => allow_null = true /\ whitespace_only final = true
    | Some x =>
        whitespace_only final && allow_null = false /\
        float_of_str final = Some x /\ out_of_range lo hi x = false
    end /\
    length (stdout w') = length (stdout w) + 2 * length rejected + 1 /\
    same_files w w'.
Proof.
  remember (stdin w) as replies eqn:E. revert w E.
  induction replies as [|reply rest IH]; intros w E H.
  - unfold inputFloatBetween in H. rewrite <- E in H. discriminate.
  - rewrite (inputFloatBetween_unfold _ _ _ _ _ _ _ _ _ (eq_sym E)) in H.
    rewrite blank_whitespace in H.
    assert (whitespace_only reply && allow_null = false ->
      float_rejected float_of_str lo hi allow_null reply ->
      ask_float question lo hi allow_null
        (printed (float_message str_of_float lo hi) (prompted question rest w))
        = (w', Ret r) ->
      exists rejected final,
        reply :: rest = rejected ++ final :: stdin w' /\
        Forall (float_rejected float_of_str lo hi allow_null) rejected /\
        match r with
        | None => allow_null = true /\ whitespace_only final = true
        | Some x =>
            whitespace_only final && allow_null = false /\
            float_of_str final = Some x /\ out_of_range lo hi x = false
        end /\
        length (stdout w') = length (stdout w) + 2 * length rejected + 1 /\
        same_files w w') as Again.
    { intros B R H0.
      destruct (IH (printed (float_message str_of_float lo hi) (prompted question rest w))
                  eq_refl H0) as (rej & fin & S & F & M & L & Fr).
      exists (reply :: rej), fin. cbn [app]. rewrite S.
      split; [done|]. split; [by constructor|]. split; [done|]. split; [|apply Fr].
      rewrite L. unfold printed, prompted.
      cbn [stdout set_stdout set_stdin length]. rewrite !length_app. cbn [length]. lia. }
    destruct (whitespace_only reply && allow_null) eqn:B.
    + injection H as <- <-. apply andb_true_iff in B as [W N].
      exists [], reply. cbn [app]. split; [done|]. split; [constructor|].
      split; [done|]. split; [|by repeat split].
      unfold prompted. cbn [stdout set_stdout set_stdin length].
      rewrite length_app. cbn [length]. lia.
    + destruct (float_of_str reply) as [x|] eqn:F.
      * destruct (out_of_range lo hi x) eqn:O.
        -- apply Again; [done| |done]. split; [done|]. by rewrite F.
        -- injection H as <- <-. exists [], reply. cbn [app].
           split; [done|]. split; [constructor|]. split; [done|].
           split; [|by repeat split].
           unfold prompted. cbn [stdout set_stdout set_stdin length].
           rewrite length_app. cbn [length]. lia.
      * apply Again; [done| |done]. split; [done|]. by rewrite F.
Qed.

(** X2. What the integer prompt returns.  It returns [None] only at a
    nullable prompt, for a reply that is empty or whitespace only;
    otherwise it returns the integer the last reply reads as, whatever it
    is.  The replies before the last were no integers. *)
Theorem int_prompt_result question allow_null w w' r :
  ask_int question allow_null w = (w', Ret r) ->
  exists rejected final,
    stdin w = rejected ++ final :: stdin w' /\
    Forall (int_rejected int_of_str allow_null) rejected /\
    match r with
    | None => allow_null = true /\ whitespace_only final = true
    | Some n => whitespace_only final && allow_null = false /\ int_of_str final = Some n
    end /\
    length (stdout w') = length (stdout w) + 2 * length rejected + 1 /\
    same_files w w'.
Proof.
  remember (stdin w) as replies eqn:E. revert w E.
  induction replies as [|reply rest IH]; intros w E H.
  - unfold inputInt in H. rewrite <- E in H. discriminate.
  - rewrite (inputInt_unfold _ _ _ _ _ _ (eq_sym E)) in H.
    rewrite blank_whitespace in H.
    destruct (whitespace_only reply && allow_null) eqn:B.
    + injection H as <- <-. apply andb_true_iff in B as [W N].
      exists [], reply. cbn [app]. split; [done|]. split; [constructor|].
      split; [done|]. split; [|by repeat split].
      unfold prompted. cbn [stdout set_stdout set_stdin length].
      rewrite length_app. cbn [length]. lia.
    + destruct (int_of_str reply) as [n|] eqn:F.
      * injection H as <- <-. exists [], reply. cbn [app].
        split; [done|]. split; [constructor|]. split; [done|].
        split; [|by repeat split].
        unfold prompted. cbn [stdout set_stdout set_stdin length].
        rewrite length_app. cbn [length]. lia.
      * destruct (IH (printed int_message (prompted question rest w)) eq_refl H)
          as (rej & fin & S & Fa & M & L & Fr).
        exists (reply :: rej), fin. cbn [app]. rewrite S.
        split; [done|]. split; [by constructor|]. split; [done|]. split; [|apply Fr].
        rewrite L. unfold printed, prompted.
        cbn [stdout set_stdout set_stdin length]. rewrite !length_app. cbn [length]. lia.
Qed.

(** X3. When the numeric prompts come to no end.  The exceptions of class
    [Exception] that [input] and the conversion raise are caught by the
    loop, the [EOFError] of [input] at the end of the input like the error
    of a malformed number.  So a numeric prompt goes round for ever exactly
    when none of the replies that are left is one it takes, which is so in
    particular when no reply is left at all; with a reply that it takes
    among those left, it comes to an end. *)
Theorem numeric_prompts_loop_for_ever question lo hi allow_null w :
  (snd (ask_float question lo hi allow_null w) = Diverge
   <-> Forall (float_rejected float_of_str lo hi allow_null) (stdin w)) /\
  (snd (ask_int question allow_null w) = Diverge
   <-> Forall (int_rejected int_of_str allow_null) (stdin w)).
Proof.
  remember (stdin w) as replies eqn:E. revert w E.
  induction replies as [|reply rest IH]; intros w E.
  - unfold inputFloatBetween, inputInt. rewrite <- E. cbn. by repeat split.
  - rewrite (inputFloatBetween_unfold _ _ _ _ _ _ _ _ _ (eq_sym E)).
    rewrite (inputInt_unfold _ _ _ _ _ _ (eq_sym E)).
    rewrite blank_whitespace.
    destruct (IH (printed (float_message str_of_float lo hi) (prompted question rest w))
                eq_refl) as (F & _).
    destruct (IH (printed int_message (prompted question rest w)) eq_refl) as (_ & I).
    unfold float_rejected, int_rejected in *.
    split.
    + destruct (whitespace_only reply && allow_null) eqn:B.
      * split; [done|]. intros R. inversion R as [|? ? [B' _] _]; subst. congruence.
      * destruct (float_of_str reply) as [x|] eqn:Fx.
        -- destruct (out_of_range lo hi x) eqn:O.
           ++ rewrite F. split.
              ** intros R. constructor; [|done]. split; [done|]. by rewrite Fx.
              ** intros R. by inversion R.
           ++ split; [done|]. intros R. inversion R as [|? ? [_ Rj] _]; subst.
              rewrite Fx in Rj. congruence.
        -- rewrite F. split.
           ++ intros R. constructor; [|done]. split; [done|]. by rewrite Fx.
           ++ intros R. by inversion R.
    + destruct (whitespace_only reply && allow_null) eqn:B.
      * split; [done|]. intros R. inversion R as [|? ? [B' _] _]; subst. congruence.
      * destruct (int_of_str reply) as [n|] eqn:Fn.
        -- split; [done|]. intros R. inversion R as [|? ? [_ Rj] _]; subst. congruence.
        -- rewrite I. split.
           ++ intros R. by constructor.
           ++ intros R. by inversion R.
Qed.

End MorePrompts.

(** ** The options *)

Lemma ltb_nan_r (x : float) : PrimFloat.ltb x nan = false.
Proof.
  rewrite FloatAxioms.ltb_spec. change (FloatOps.Prim2SF nan) with SpecFloat.S754_nan.
  unfold SpecFloat.SFltb. by destruct (FloatOps.Prim2SF x).
Qed.

Lemma ltb_nan_l (x : float) : PrimFloat.ltb nan x = false.
Proof.
  rewrite FloatAxioms.ltb_spec. change (FloatOps.Prim2SF nan) with SpecFloat.S754_nan.
  unfold SpecFloat.SFltb. by destruct (FloatOps.Prim2SF x).
Qed.

Lemma lookup_put_eq {A} key (inj : A -> pyval) (x : option A) (d : gmap string pyval) :
  put key inj x d !! key = match x with Some v => Some (inj v) | None => d !! key end.
Proof. destruct x; cbn [put]; [apply lookup_insert_eq | done]. Qed.

Lemma lookup_put_ne {A} key k (inj : A -> pyval) (x : option A) (d : gmap string pyval) :
  key <> k -> put key inj x d !! k = d !! k.
Proof. intros N. destruct x; cbn [put]; [by apply lookup_insert_ne | done]. Qed.

Lemma dom_put {A} key (inj : A -> pyval) (x : option A) (d : gmap string pyval) :
  dom (put key inj x d) ⊆ {[ key ]} ∪ dom d.
Proof. destruct x; cbn [put]; [rewrite dom_insert_L|]; set_solver. Qed.

Tactic Notation "bind_inv" hyp(H) "as" ident(H1) "giving" ident(a) :=
  let w1 := fresh "w" in
  apply bind_returns in H; destruct H as (w1 & a & H1 & H).

Section MoreOptions.

Context {Client : Type}.
Variable float_of_str : pystr -> option float.
Variable int_of_str : pystr -> option Z.
Variable str_of_float : float -> pystr.

Implicit Types (w : World Client) (question reply : pystr) (rest : list pystr).

Local Abbreviation ask_float :=
  (inputFloatBetween float_of_str str_of_float).
Local Abbreviation get_options :=
  (getRequestOptions float_of_str int_of_str str_of_float).

(** X4. The range check of the float prompt lets a NaN pass: it is neither
    above the maximum nor below the minimum, whatever the bounds are.  A
    reply that reads as NaN ends the prompt and is returned. *)
Theorem float_prompt_takes_nan question lo hi allow_null reply rest w :
  float_of_str reply = Some nan ->
  whitespace_only reply = false ->
  stdin w = reply :: rest ->
  ask_float question lo hi allow_null w = (prompted question rest w, Ret (Some nan)).
Proof.
  intros F W E. rewrite (inputFloatBetween_unfold _ _ _ _ _ _ _ _ _ E).
  rewrite blank_whitespace, W, F. unfold out_of_range.
  by rewrite ltb_nan_r, ltb_nan_l.
Qed.

Lemma input_at_end question w :
  stdin w = [] ->
  inputStringOrNull question w
  = (set_stdout (stdout w ++ [strip question ++ str " "]) w, Raise EOFError).
Proof. intros E. unfold inputStringOrNull, bind, input. by rewrite E. Qed.

(** X5. The end of the input at the prompts of the options.  A string
    prompt raises [EOFError], and its default is not used.  When the input
    ends before the model was given, the call that asks the options raises
    [EOFError] and leaves the global empty, so that the options are not
    taken as asked.  When it ends right after the model was given, the call
    never returns, as the prompt of the first number never does. *)
Theorem options_at_end_of_input w :
  requestOptions w = ∅ ->
  (stdin w = [] ->
     forall question default,
       snd (inputStringOrNull question w) = Raise EOFError /\
       snd (inputStringOrDefault question default w) = Raise EOFError) /\
  (stdin w = [] ->
     snd (get_options w) = Raise EOFError /\
     requestOptions (fst (get_options w)) = ∅) /\
  (forall model, stdin w = [model] -> snd (get_options w) = Diverge).
Proof.
  intros O. split; [|split].
  - intros E question default. unfold inputStringOrDefault, bind.
    by rewrite (input_at_end _ _ E).
  - intros E. unfold getRequestOptions, bind, get_requestOptions.
    rewrite O, map_size_empty. cbn [Nat.eqb].
    unfold ask_options, bind, print, inputStringOrDefault, bind.
    rewrite input_at_end by done. done.
  - intros model E. unfold getRequestOptions, bind, get_requestOptions.
    rewrite O, map_size_empty. cbn [Nat.eqb].
    unfold ask_options. unfold bind at 1. unfold print at 1. unfold bind at 1.
    erewrite inputStringOrDefault_reply by exact E.
    unfold bind at 1. unfold set_option at 1. unfold bind at 1.
    unfold inputFloatBetween. done.
Qed.

Lemma default_or_stripped_not_empty (default reply : pystr) :
  default <> [] -> (if whitespace_only reply then default else strip reply) <> [].
Proof.
  intros D. destruct (whitespace_only reply) eqn:W; [done|].
  intros S. apply strip_whitespace in S. congruence.
Qed.

(** X6. What the dictionary of the options can hold.  After the first call
    has returned, its keys are among the five option names; the model is
    there and is not the empty string; a penalty, where there is one, is a
    float that is neither above 2.0 nor below -2.0, the temperature one
    that is neither above 2.0 nor below 0.0, and the token limit is an
    integer. *)
Theorem options_domain_and_ranges w w' options :
  requestOptions w = ∅ ->
  get_options w = (w', Ret options) ->
  dom options ⊆ ({[ "model"; "frequency_penalty"; "max_tokens"; "presence_penalty";
                    "temperature" ]} : gset string) /\
  (exists model, options !! "model" = Some (VStr model) /\ model <> []) /\
  (forall v, options !! "frequency_penalty" = Some v ->
     exists x, v = VFloat x /\ out_of_range (-2.0)%float 2.0%float x = false) /\
  (forall v, options !! "max_tokens" = Some v -> exists n, v = VInt n) /\
  (forall v, options !! "presence_penalty" = Some v ->
     exists x, v = VFloat x /\ out_of_range (-2.0)%float 2.0%float x = false) /\
  (forall v, options !! "temperature" = Some v ->
     exists x, v = VFloat x /\ out_of_range 0.0%float 2.0%float x = false).
Proof.
  intros E H. unfold getRequestOptions in H.
  bind_inv H as G. unfold get_requestOptions in G. injection G as <- <-.
  rewrite E, map_size_empty in H. cbn [Nat.eqb] in H.
  bind_inv H as A. unfold get_requestOptions in H. injection H as <- <-.
  unfold ask_options in A.
  bind_inv A as P. unfold print in P. injection P as <- _.
  bind_inv A as P0. apply inputStringOrDefault_returns in P0 as (model & _ & -> & F0).
  bind_inv A as O0. unfold set_option in O0. injection O0 as <- _.
  bind_inv A as P1 giving fp.
  apply float_prompt_result in P1 as (rj1 & fin1 & _ & _ & R1 & _ & F1).
  bind_inv A as U1. apply set_option_if_given_returns in U1 as (O1 & _).
  bind_inv A as P2 giving mt.
  apply int_prompt_result in P2 as (rj2 & fin2 & _ & _ & _ & _ & F2).
  bind_inv A as U2. apply set_option_if_given_returns in U2 as (O2 & _).
  bind_inv A as P3 giving pp.
  apply float_prompt_result in P3 as (rj3 & fin3 & _ & _ & R3 & _ & F3).
  bind_inv A as U3. apply set_option_if_given_returns in U3 as (O3 & _).
  bind_inv A as P4 giving te.
  apply float_prompt_result in P4 as (rj4 & fin4 & _ & _ & R4 & _ & F4).
  apply set_option_if_given_returns in A as (O4 & _).
  destruct F0 as (A0 & _), F1 as (A1 & _), F2 as (A2 & _), F3 as (A3 & _), F4 as (A4 & _).
  cbn [requestOptions set_requestOptions printed set_stdout] in *.
  pose proof (default_or_stripped_not_empty model_default model) as M.
  assert (requestOptions w0
          = put "temperature" VFloat te
              (put "presence_penalty" VFloat pp
                 (put "max_tokens" VInt mt
                    (put "frequency_penalty" VFloat fp
                       (<["model" := VStr (if whitespace_only model then model_default
                                           else strip model)]> ∅))))) as ->.
  { rewrite O4, A4, O3, A3, O2, A2, O1, A1, A0, E. reflexivity. }
  split.
  { etrans; [apply dom_put|]. apply union_least; [set_solver|].
    etrans; [apply dom_put|]. apply union_least; [set_solver|].
    etrans; [apply dom_put|]. apply union_least; [set_solver|].
    etrans; [apply dom_put|]. apply union_least; [set_solver|].
    rewrite dom_insert_L, dom_empty_L, union_empty_r_L. set_unfold. intros ? ->. auto. }
  split.
  { eexists. rewrite !lookup_put_ne by done. split; [apply lookup_insert_eq | by apply M]. }
  split.
  { intros v. rewrite !lookup_put_ne, lookup_put_eq by done.
    destruct fp as [x|]; [|by rewrite lookup_insert_ne]. intros [= <-].
    exists x. split; [done | apply R1]. }
  split.
  { intros v. rewrite !lookup_put_ne, lookup_put_eq by done.
    destruct mt as [n|]; [|by rewrite lookup_put_ne, lookup_insert_ne]. intros [= <-]. eauto. }
  split.
  { intros v. rewrite !lookup_put_ne, lookup_put_eq by done.
    destruct pp as [x|]; [|by rewrite !lookup_put_ne, lookup_insert_ne]. intros [= <-].
    exists x. split; [done | apply R3]. }
  intros v. rewrite lookup_put_eq.
  destruct te as [x|]; [|by rewrite !lookup_put_ne, lookup_insert_ne]. intros [= <-].
  exists x. split; [done | apply R4].
Qed.

End MoreOptions.

(** ** Histories *)

Lemma histories_first (messages : list ChatHistoryEntry) (lines : list pystr)
    (answers : list ChatCompletionMessage) (h : list ChatHistoryEntry) :
  histories messages lines answers !! 0 = Some h ->
  exists q, filter is_question lines !! 0 = Some q /\ h = messages ++ [user_entry q].
Proof.
  induction lines as [|l ls IH]; cbn [histories]; [done|].
  destruct (is_question l) eqn:Q.
  - rewrite filter_true by done.
    destruct answers as [|a answers]; [done|]. intros [= <-]. by exists l.
  - rewrite filter_false by done. apply IH.
Qed.

Lemma histories_lookup (messages : list ChatHistoryEntry) (lines : list pystr)
    (answers : list ChatCompletionMessage) (i : nat) (h : list ChatHistoryEntry) :
  histories messages lines answers !! i = Some h ->
  length h = length messages + 2 * i + 1 /\ messages `prefix_of` h.
Proof.
  revert messages answers i. induction lines as [|l ls IH]; intros m answers i;
    cbn [histories]; [done|].
  destruct (is_question l); [|apply IH].
  destruct answers as [|a answers]; [done|]. destruct i as [|i].
  - intros [= <-]. rewrite length_app. cbn [length]. split; [lia|]. by apply prefix_app_r.
  - intros H. apply IH in H as [L P]. rewrite length_app in L. cbn [length] in L.
    split; [lia|]. etrans; [|exact P]. by apply prefix_app_r.
Qed.

Lemma histories_next (messages : list ChatHistoryEntry) (lines : list pystr)
    (answers : list ChatCompletionMessage) (i : nat) (h h' : list ChatHistoryEntry) :
  histories messages lines answers !! i = Some h ->
  histories messages lines answers !! S i = Some h' ->
  exists a q,
    answers !! i = Some a /\ filter is_question lines !! S i = Some q /\
    h' = h ++ [Message a; user_entry q].
Proof.
  revert messages answers i. induction lines as [|l ls IH]; intros m answers i;
    cbn [histories]; [done|].
  destruct (is_question l) eqn:Q.
  - rewrite filter_true by done.
    destruct answers as [|a answers]; [done|]. destruct i as [|i].
    + intros [= <-] H. cbn [lookup list_lookup] in H |- *.
      apply histories_first in H as (q & I & ->).
      exists a, q. repeat split; [done | by rewrite <- !app_assoc].
    + intros H H'. destruct (IH _ _ _ H H') as (a' & q & A & I & ->).
      by exists a', q.
  - rewrite filter_false by done. apply IH.
Qed.

Lemma length_omap_le {A B} (f : A -> option B) (l : list A) :
  length (omap f l) <= length l.
Proof.
  induction l as [|x l IH]; cbn [omap list_omap length]; [done|].
  destruct (f x); cbn [length]; lia.
Qed.

Lemma omap_lookup_full {A B} (f : A -> option B) (l : list A) (i : nat) (x : A) :
  length (omap f l) = length l -> l !! i = Some x -> omap f l !! i = f x.
Proof.
  revert i. induction l as [|y l IH]; intros i; cbn [omap list_omap length]; [done|].
  pose proof (length_omap_le f l) as Le.
  destruct (f y) as [b|] eqn:F; cbn [length]; intros L; [|lia].
  destruct i as [|i]; cbn [lookup list_lookup].
  - intros [= <-]. by rewrite F.
  - apply IH. lia.
Qed.

(** ** Input without questions *)

Lemma concat_readlines (s : pystr) : concat (readlines s) = s.
Proof.
  induction s as [|c s IH]; step; [done|].
  destruct (Ascii.eqb c LF) eqn:C.
  - apply Ascii.eqb_eq in C as ->. cbn [concat app]. by rewrite IH.
  - destruct (readlines s) as [|l ls] eqn:R.
    + apply readlines_nil in R as ->. done.
    + cbn [concat app] in IH |- *. by rewrite IH.
Qed.

Lemma filter_nil_not_question (l : pystr) (ls : list pystr) :
  filter is_question (l :: ls) = [] ->
  is_question l = false /\ filter is_question ls = [].
Proof.
  destruct (is_question l) eqn:Q.
  - by rewrite filter_true.
  - by rewrite filter_false.
Qed.

Lemma filter_no_answer (ls : list pystr) :
  filter is_answer ls = [] -> filter (fun l => negb (is_answer l)) ls = ls.
Proof.
  induction ls as [|l ls IH]; [done|].
  destruct (is_answer l) eqn:A.
  - by rewrite filter_true.
  - rewrite filter_false by done. intros H.
    rewrite filter_cons_True by (by rewrite A). by rewrite IH.
Qed.

(** ** The driver and its requests *)

Section MoreDriver.

Context {Client Client' : Type}.
Variable create :
  Client -> gmap string pyval -> list ChatHistoryEntry -> Client * Response.
Variable create' :
  Client' -> gmap string pyval -> list ChatHistoryEntry -> Client' * Response.
Variable float_of_str : pystr -> option float.
Variable int_of_str : pystr -> option Z.
Variable str_of_float : float -> pystr.

Implicit Types (w : World Client) (line body : pystr) (lines : list pystr).
Implicit Types (messages : list ChatHistoryEntry) (answer : ChatCompletionMessage).

Local Abbreviation getAnswer := (getAnswer create float_of_str int_of_str str_of_float).
Local Abbreviation line_step := (line_step create float_of_str int_of_str str_of_float).
Local Abbreviation for_lines := (for_lines create float_of_str int_of_str str_of_float).
Local Abbreviation fill :=
  (fillOutputFileUsingConversationHistory create float_of_str int_of_str str_of_float).
Local Abbreviation fill' :=
  (fillOutputFileUsingConversationHistory create' float_of_str int_of_str str_of_float).

(** X7. A response that cannot be used.  When the response has no choice,
    taking the first raises [IndexError]; when the message of the first
    choice has no content, stripping it raises [AttributeError].  In both
    cases the call was made, the line of the question is in the output
    file and no answer line is, and the exception leaves the step. *)
Theorem malformed_response_aborts messages line w c r :
  is_question line = true ->
  requestOptions w <> ∅ ->
  create (client w) (requestOptions w) (messages ++ [user_entry line]) = (c, r) ->
  (r = inr [] ->
     line_step messages line w = (asked line messages c r w, Raise IndexError)) /\
  (forall answer others, r = inr (answer :: others) -> content answer = None ->
     line_step messages line w = (asked line messages c r w, Raise AttributeError)) /\
  outputFile (asked line messages c r w) = outputFile w ++ [line] /\
  exchanges (asked line messages c r w)
  = exchanges w ++ [((requestOptions w, messages ++ [user_entry line]), r)].
Proof.
  intros Q N C.
  assert (forall answer, r = inr [] \/ (exists others, r = inr (answer :: others)) ->
    line_step messages line w
    = match r with
      | inr (a :: _) =>
          match content a with
          | Some body =>
              (set_outputFile (outputFile w ++ [line; answer_line body])
                 (asked line messages c r w),
               Ret (messages ++ [user_entry line; Message a]))
          | None => (asked line messages c r w, Raise AttributeError)
          end
      | _ => (asked line messages c r w, Raise IndexError)
      end) as Step.
  { intros answer R. unfold line_step. unfold is_question in Q. rewrite Q.
    rewrite bind_write, bind_print. unfold bind at 1.
    rewrite getAnswer_cached by done.
    change (create _ _ _)
      with (create (client w) (requestOptions w) (messages ++ [user_entry line])).
    rewrite C. cbn [fst snd].
    destruct R as [->|[others ->]]; [done|].
    unfold bind, content_stripped. destruct (content answer) as [body|]; [|done].
    unfold ret, write, asked, answer_line, generating, user_entry, printed,
      set_outputFile, set_client, set_stdout.
    cbn [outputFile exchanges requestOptions stdout stdin client].
    by rewrite <- !app_assoc. }
  split; [|split; [|done]].
  - intros ->. by rewrite (Step (assistant [])) by (by left).
  - intros answer others -> B. rewrite (Step answer) by (right; by exists others).
    by rewrite B.
Qed.

(** *** The calls of a run *)

Lemma getAnswer_sends messages w w' answer :
  getAnswer messages w = (w', Ret answer) ->
  exists others,
    exchanges w' = exchanges w ++ [((requestOptions w', messages), inr (answer :: others))] /\
    requestOptions w' <> ∅ /\
    (requestOptions w <> ∅ -> requestOptions w' = requestOptions w).
Proof.
  intros H. unfold getAnswer in H. bind_inv H as G.
  pose proof G as G'.
  apply getRequestOptions_returns in G as (O & N & _ & _ & X).
  bind_inv H as S. unfold send in S.
  destruct (create (client w0) a messages) as [c [e|choices]]; [done|].
  injection S as <- <-. destruct choices as [|answer' others]; [done|].
  injection H as <- <-. exists others. cbn [exchanges requestOptions set_client].
  rewrite X, O. repeat split; [done|]. intros N'.
  rewrite getRequestOptions_cached in G' by done. by injection G' as <- <-.
Qed.

Lemma line_step_question_sends messages line w w' messages' :
  is_question line = true ->
  line_step messages line w = (w', Ret messages') ->
  exists answer others,
    messages' = messages ++ [user_entry line; Message answer] /\
    exchanges w'
    = exchanges w
      ++ [((requestOptions w', messages ++ [user_entry line]), inr (answer :: others))] /\
    requestOptions w' <> ∅ /\
    (requestOptions w <> ∅ -> requestOptions w' = requestOptions w).
Proof.
  intros Q H. unfold line_step in H. unfold is_question in Q. rewrite Q in H.
  rewrite bind_write, bind_print in H. bind_inv H as G.
  apply getAnswer_sends in G as (others & X & N & K).
  bind_inv H as B. unfold content_stripped in B.
  destruct (content a) as [body|]; [|done]. injection B as <- <-.
  rewrite bind_write in H. injection H as <- <-.
  exists a, others. cbn [exchanges requestOptions set_outputFile].
  split; [unfold user_entry; by rewrite <- app_assoc|].
  split; [exact X|]. split; [exact N|exact K].
Qed.

Lemma line_step_keeps_options messages line w w' messages' :
  line_step messages line w = (w', Ret messages') ->
  requestOptions w <> ∅ -> requestOptions w' = requestOptions w.
Proof.
  intros H N. destruct (is_question line) eqn:Q.
  - destruct (line_step_question_sends _ _ _ _ _ Q H) as (? & ? & _ & _ & _ & K). auto.
  - destruct (is_answer line) eqn:A.
    + rewrite line_step_answer in H by done. by injection H as <- _.
    + rewrite line_step_other in H by done. by injection H as <- _.
Qed.

(** A run that returns: its calls, their histories and their options. *)
Lemma for_lines_calls lines messages w w' messages' :
  for_lines lines messages w = (w', Ret messages') ->
  exists calls,
    exchanges w' = exchanges w ++ calls /\
    length (answers_of calls) = length calls /\
    history_of <$> calls = histories messages lines (answers_of calls) /\
    Forall (fun call => fst (fst call) = requestOptions w') calls /\
    (requestOptions w <> ∅ -> requestOptions w' = requestOptions w) /\
    (calls <> [] -> requestOptions w' <> ∅).
Proof.
  revert messages w. induction lines as [|line lines IH]; intros messages w H.
  - injection H as <- <-. exists []. rewrite app_nil_r. by repeat split.
  - rewrite for_lines_cons in H.
    destruct (line_step messages line w) as [w1 [m1| |]] eqn:S; [|done..].
    destruct (IH _ _ H) as (calls & X & L & Hs & Os & K & N).
    pose proof (line_step_keeps_options _ _ _ _ _ S) as K1.
    destruct (is_question line) eqn:Q.
    + destruct (line_step_question_sends _ _ _ _ _ Q S)
        as (answer & others & -> & X1 & N1 & _).
      exists (((requestOptions w1, messages ++ [user_entry line]), inr (answer :: others))
              :: calls).
      unfold answers_of in *. cbn [omap list_omap answer_of snd fmap list_fmap histories].
      rewrite Q. cbn [length history_of fst snd].
      rewrite X, X1, <- app_assoc, L, <- Hs.
      repeat split; try done.
      * constructor; [cbn [fst]; symmetry; by apply K | done].
      * intros Nw. rewrite K by done. by apply K1.
      * intros _. by rewrite K.
    + exists calls. cbn [histories]. rewrite Q.
      assert (exchanges w1 = exchanges w) as <-.
      { destruct (is_answer line) eqn:A.
        - rewrite line_step_answer in S by done. by injection S as <- _.
        - rewrite line_step_other in S by done. by injection S as <- _. }
      assert (m1 = messages) as <-.
      { destruct (is_answer line) eqn:A.
        - rewrite line_step_answer in S by done. by injection S as _ <-.
        - rewrite line_step_other in S by done. by injection S as _ <-. }
      repeat split; try done.
      intros Nw. destruct (decide (requestOptions w1 = ∅)) as [Z|NZ].
      * by rewrite K1 in Z.
      * rewrite K by done. by apply K1.
Qed.

Lemma fill_calls system_message text w w' :
  fill system_message text w = (w', Ret tt) ->
  exists calls,
    calls_since w w' = calls /\
    length (answers_of calls) = length calls /\
    history_of <$> calls
    = histories (initial_messages system_message) (file_lines text) (answers_of calls) /\
    Forall (fun call => fst (fst call) = requestOptions w') calls /\
    (requestOptions w <> ∅ -> requestOptions w' = requestOptions w).
Proof.
  rewrite fill_unfold. intros H.
  destruct (for_lines (file_lines text) (initial_messages system_message)
              (set_outputFile [] w)) as [w1 [m| |]] eqn:R; [|done..].
  injection H as <-.
  destruct (for_lines_calls _ _ _ _ _ R) as (calls & X & L & Hs & Os & K & _).
  exists calls. cbn [exchanges set_outputFile requestOptions] in X, K.
  unfold calls_since. rewrite X, drop_app_length. by repeat split.
Qed.

(** X8. Every request carries the whole conversation so far.  In a run
    that returns there is one request for each question line of the input.
    The first request has the initial messages, which are the system
    message if one was given, and the first question.  Each later request
    has the messages of the request before it, the answer that came back
    for that one, and the next question line of the input.  So the request
    number [i] (from 0) ends with the question number [i] of the input and
    has [2 * i + 1] messages after the initial ones. *)
Theorem requests_carry_history system_message text w w' :
  fill system_message text w = (w', Ret tt) ->
  let questions := filter is_question (file_lines text) in
  let calls := calls_since w w' in
  length calls = length questions /\
  (forall call : Exchange,
     calls !! 0 = Some call ->
     exists q,
       questions !! 0 = Some q /\
       history_of call = initial_messages system_message ++ [user_entry q]) /\
  (forall (i : nat) (call call' : Exchange),
     calls !! i = Some call ->
     calls !! S i = Some call' ->
     exists a q,
       answer_of call = Some a /\ questions !! S i = Some q /\
       history_of call' = history_of call ++ [Message a; user_entry q]) /\
  (forall (i : nat) (call : Exchange),
     calls !! i = Some call ->
     exists q,
       questions !! i = Some q /\ last (history_of call) = Some (user_entry q) /\
       length (history_of call) = length (initial_messages system_message) + 2 * i + 1 /\
       initial_messages system_message `prefix_of` history_of call).
Proof.
  intros H questions calls. subst questions calls.
  destruct (fill_calls _ _ _ _ H) as (calls & E & L & Hs & _).
  destruct (fill_returns _ _ _ _ _ _ _ _ H) as (calls0 & X & L0 & _).
  assert (calls0 = calls) as -> by (rewrite <- E; unfold calls_since; by rewrite X, drop_app_length).
  rewrite E.
  assert (forall call : Exchange,
     calls !! 0 = Some call ->
     exists q,
       filter is_question (file_lines text) !! 0 = Some q /\
       history_of call = initial_messages system_message ++ [user_entry q]) as First.
  { intros call C.
    apply (histories_first _ (file_lines text) (answers_of calls)).
    by rewrite <- Hs, list_lookup_fmap, C. }
  assert (forall (i : nat) (call call' : Exchange),
     calls !! i = Some call ->
     calls !! S i = Some call' ->
     exists a q,
       answer_of call = Some a /\
       filter is_question (file_lines text) !! S i = Some q /\
       history_of call' = history_of call ++ [Message a; user_entry q]) as Next.
  { intros i call call' C C'.
    destruct (histories_next (initial_messages system_message) (file_lines text)
                (answers_of calls) i (history_of call) (history_of call'))
      as (a & q & A & I & Hq).
    - by rewrite <- Hs, list_lookup_fmap, C.
    - by rewrite <- Hs, list_lookup_fmap, C'.
    - exists a, q. repeat split; try done.
      unfold answers_of in A, L. by rewrite (omap_lookup_full _ _ _ _ L C) in A. }
  split; [congruence|]. split; [exact First|]. split; [exact Next|].
  intros i call C.
  assert (length (history_of call) = length (initial_messages system_message) + 2 * i + 1 /\
          initial_messages system_message `prefix_of` history_of call) as [Len Pre].
  { apply (histories_lookup _ (file_lines text) (answers_of calls)).
    by rewrite <- Hs, list_lookup_fmap, C. }
  destruct i as [|i].
  - destruct (First call C) as (q & Q & Hq). exists q.
    rewrite Hq at 1. by rewrite last_snoc.
  - destruct (lookup_lt_is_Some_2 calls i) as [before B].
    { apply lookup_lt_Some in C. lia. }
    destruct (Next i before call B C) as (a & q & _ & Q & Hq). exists q.
    rewrite Hq at 1.
    change [Message a; user_entry q] with ([Message a] ++ [user_entry q]).
    by rewrite app_assoc, last_snoc.
Qed.

(** X9. One dictionary of options for the whole run.  In a run that
    returns, every request was sent with the options that the global holds
    at the end; and when the options had been asked before the run, the
    run has not changed them. *)
Theorem one_options_for_all_requests system_message text w w' :
  fill system_message text w = (w', Ret tt) ->
  Forall (fun call => fst (fst call) = requestOptions w') (calls_since w w') /\
  (requestOptions w <> ∅ -> requestOptions w' = requestOptions w).
Proof.
  intros H. by destruct (fill_calls _ _ _ _ H) as (calls & -> & _ & _ & Os & K).
Qed.

(** *** Input without questions *)

Lemma for_lines_no_question lines messages w :
  filter is_question lines = [] ->
  for_lines lines messages w
  = (set_outputFile (outputFile w ++ filter (fun l => negb (is_answer l)) lines) w,
     Ret messages).
Proof.
  revert w. induction lines as [|l ls IH]; intros w Q.
  - cbn [for_lines]. unfold ret. rewrite filter_nil, app_nil_r. by destruct w.
  - apply filter_nil_not_question in Q as [Q Qs]. rewrite for_lines_cons.
    destruct (is_answer l) eqn:A.
    + rewrite line_step_answer by done.
      rewrite filter_cons_False by (rewrite A; exact id). by apply IH.
    + rewrite line_step_other by done.
      rewrite filter_cons_True by (by rewrite A). rewrite IH by done.
      unfold set_outputFile. cbn [outputFile requestOptions stdin stdout client exchanges].
      by rewrite <- app_assoc.
Qed.

(** X10. An input without question lines.  The run returns, whatever the
    state of the options and of the client: no request is sent and nothing
    is asked or printed; the output file holds the lines of the input
    that are no answer lines.  When the input has no answer line either,
    the output file is the input as it was read. *)
Theorem no_question_no_request system_message text w :
  filter is_question (file_lines text) = [] ->
  fill system_message text w
  = (set_outputFile (filter (fun l => negb (is_answer l)) (file_lines text)) w, Ret tt) /\
  (filter is_answer (file_lines text) = [] ->
   file_content (filter (fun l => negb (is_answer l)) (file_lines text))
   = universal_newlines text).
Proof.
  intros Q. split.
  - rewrite fill_unfold, for_lines_no_question by done. done.
  - intros A. rewrite filter_no_answer by done. apply concat_readlines.
Qed.

(** X11. A second run over the output file is a run over the input file.
    When the question lines of the input all end with their line feed and
    the answers of the first run have no line break in their stripped
    content, then whatever the second run does on the output file of the
    first (its requests, its output, its outcome), it does the same on the
    input file of the first. *)
Theorem rerun_is_run_on_input system_message text w1 w1' :
  fill system_message text w1 = (w1', Ret tt) ->
  questions_terminated (file_lines text) = true ->
  forallb single_line_call (calls_since w1 w1') = true ->
  forall system_message' (w2 : World Client'),
    fill' system_message' (file_content (outputFile w1')) w2
    = fill' system_message' text w2.
Proof.
  intros R T P system_message' w2.
  destruct (fill_returns _ _ _ _ _ _ _ _ R) as (calls & X & L & O).
  unfold calls_since in P. rewrite X, drop_app_length in P.
  apply single_line_calls in P.
  rewrite !fill_unfold.
  rewrite O, file_lines_transcript by (done || apply file_lines_text_lines).
  rewrite <- (for_lines_without_answers _ _ _ _ (rewritten _ _)).
  rewrite <- (for_lines_without_answers _ _ _ _ (file_lines text)).
  by rewrite rewritten_without_answers.
Qed.

(** *** The terminal during a run *)

Lemma line_step_terminal messages line w w' messages' :
  requestOptions w <> ∅ ->
  line_step messages line w = (w', Ret messages') ->
  stdin w' = stdin w /\
  stdout w'
  = stdout w ++ (if is_question line then [generating line ++ [LF]] else []).
Proof.
  intros N H. destruct (is_question line) eqn:Q.
  - unfold line_step in H. unfold is_question in Q. rewrite Q in H.
    rewrite bind_write, bind_print in H. unfold bind at 1 in H.
    rewrite getAnswer_cached in H by done.
    destruct (create _ _ _) as [c [e|[|a others]]]; cbn [fst snd] in H; [done..|].
    unfold bind, content_stripped in H. destruct (content a); [|done].
    unfold ret, write in H. by injection H as <- _.
  - rewrite app_nil_r. destruct (is_answer line) eqn:A.
    + rewrite line_step_answer in H by done. by injection H as <- _.
    + rewrite line_step_other in H by done. by injection H as <- _.
Qed.

Lemma for_lines_terminal lines messages w w' messages' :
  requestOptions w <> ∅ ->
  for_lines lines messages w = (w', Ret messages') ->
  stdin w' = stdin w /\
  stdout w'
  = stdout w ++ ((fun q => generating q ++ [LF]) <$> filter is_question lines).
Proof.
  revert messages w. induction lines as [|line lines IH]; intros messages w N H.
  - injection H as <- <-. by rewrite filter_nil, app_nil_r.
  - rewrite for_lines_cons in H.
    destruct (line_step messages line w) as [w1 [m1| |]] eqn:S; [|done..].
    destruct (line_step_terminal _ _ _ _ _ N S) as (I1 & O1).
    pose proof (line_step_keeps_options _ _ _ _ _ S N) as K.
    destruct (IH _ _ (eq_ind_r (fun o => o <> ∅) N K) H) as (I & O).
    rewrite I, I1, O, O1. split; [done|].
    destruct (is_question line) eqn:Q.
    + rewrite filter_true by done. by rewrite <- app_assoc.
    + rewrite filter_false by done. by rewrite app_nil_r.
Qed.

(** X14. The terminal during a run.  When the options were asked before
    the run, a run that returns reads nothing from the terminal, and
    prints one line for each question line, in order: [generating answer
    for: ] and the stripped text of the question. *)
Theorem run_prints_one_line_per_question system_message text w w' :
  requestOptions w <> ∅ ->
  fill system_message text w = (w', Ret tt) ->
  stdin w' = stdin w /\
  stdout w'
  = stdout w
    ++ ((fun q => str "generating answer for: " ++ strip (drop 5 q) ++ [LF])
          <$> filter is_question (file_lines text)).
Proof.
  intros N. rewrite fill_unfold. intros H.
  destruct (for_lines (file_lines text) (initial_messages system_message)
              (set_outputFile [] w)) as [w1 [m| |]] eqn:R; [|done..].
  injection H as <-.
  destruct (for_lines_terminal _ _ (set_outputFile [] w) _ _ N R) as (I & O).
  split; [done|]. rewrite O. reflexivity.
Qed.

End MoreDriver.

(** ** The entry point *)

Section MoreMain.

Context {Client : Type}.
Variable float_of_str : pystr -> option float.
Variable int_of_str : pystr -> option Z.
Variable str_of_float : float -> pystr.

Implicit Types (w : World Client) (reply : pystr) (rest : list pystr).

Local Abbreviation get_options :=
  (getRequestOptions float_of_str int_of_str str_of_float).
Local Abbreviation run_main := (main float_of_str int_of_str str_of_float).

Lemma inputStringOrNull_or_null question reply rest w :
  stdin w = reply :: rest ->
  inputStringOrNull question w = (prompted question rest w, Ret (or_null reply)).
Proof.
  intros E. rewrite (inputStringOrNull_reply _ _ _ _ E). unfold or_null.
  destruct (whitespace_only reply) eqn:W.
  - apply strip_whitespace in W. by rewrite W.
  - destruct (strip reply) eqn:S; [|done]. apply strip_whitespace in S. congruence.
Qed.

Lemma inputStringOrDefault_or_default question default reply rest w :
  stdin w = reply :: rest ->
  inputStringOrDefault question default w
  = (prompted question rest w, Ret (or_default reply default)).
Proof.
  intros E. rewrite (inputStringOrDefault_reply _ _ _ _ _ E). unfold or_default.
  destruct (whitespace_only reply) eqn:W.
  - apply strip_whitespace in W. by rewrite W.
  - destruct (strip reply) eqn:S; [|done]. apply strip_whitespace in S. congruence.
Qed.

Lemma main_unfold launch key url out inp sm rest w :
  stdin w = key :: url :: out :: inp :: sm :: rest ->
  run_main launch w
  = match get_options (after_questions url out inp sm rest w) with
    | (w', Ret _) =>
        launch (or_null key) (or_null url) (or_default out output_file_default)
          (or_default inp input_file_default) (or_null sm) w'
    | (w', Raise e) => (w', Raise e)
    | (w', Diverge) => (w', Diverge)
    end.
Proof.
  intros E. unfold main.
  unfold bind at 1. erewrite inputStringOrNull_or_null by exact E.
  unfold bind at 1. erewrite inputStringOrNull_or_null by reflexivity.
  unfold bind at 1. erewrite inputStringOrDefault_or_default by reflexivity.
  unfold bind at 1. erewrite inputStringOrDefault_or_default by reflexivity.
  unfold bind at 1. erewrite inputStringOrNull_or_null by reflexivity.
  reflexivity.
Qed.

(** X12. [main] asks before it acts.  It reads the key, the base URL, the
    two file names and the system message, in this order, and then asks
    the options.  A blank reply gives no key, no base URL, no system
    message, and the file names [LLM TestResult.md] and [LLM Test.md].
    Only then does the rest of [main] run, with these values, and in a
    world in which the options are asked already (so that no request of
    the driver asks again) and in which no file was written and no request
    was sent. *)
Theorem main_asks_then_launches launch key url out inp sm rest w w' options :
  stdin w = key :: url :: out :: inp :: sm :: rest ->
  get_options (after_questions url out inp sm rest w) = (w', Ret options) ->
  run_main launch w
  = launch (or_null key) (or_null url) (or_default out output_file_default)
      (or_default inp input_file_default) (or_null sm) w' /\
  requestOptions w' = options /\ options <> ∅ /\
  get_options w' = (w', Ret options) /\
  outputFile w' = outputFile w /\ exchanges w' = exchanges w /\ client w' = client w.
Proof.
  intros E G. rewrite (main_unfold _ _ _ _ _ _ _ _ E), G.
  destruct (getRequestOptions_returns _ _ _ _ _ _ G) as (O & N & F & C & X).
  repeat split; try done.
  rewrite <- O. apply getRequestOptions_cached. by rewrite O.
Qed.

Lemma main_short w :
  length (stdin w) < 5 ->
  exists w',
    (forall launch, run_main launch w = (w', Raise EOFError)) /\
    outputFile w' = outputFile w /\ exchanges w' = exchanges w /\
    requestOptions w' = requestOptions w.
Proof.
  intros L.
  destruct (stdin w) as [|key rest] eqn:E.
  { eexists. split.
    - intros launch. unfold main.
      unfold bind at 1. rewrite input_at_end by done. reflexivity.
    - by repeat split. }
  destruct rest as [|url rest].
  { eexists. split.
    - intros launch. unfold main.
      unfold bind at 1. erewrite inputStringOrNull_or_null by exact E.
      unfold bind at 1. rewrite input_at_end by done. reflexivity.
    - by repeat split. }
  destruct rest as [|out rest].
  { eexists. split.
    - intros launch. unfold main.
      unfold bind at 1. erewrite inputStringOrNull_or_null by exact E.
      unfold bind at 1. erewrite inputStringOrNull_or_null by reflexivity.
      unfold inputStringOrDefault. unfold bind at 1. unfold bind at 1.
      rewrite input_at_end by done. reflexivity.
    - by repeat split. }
  destruct rest as [|inp rest].
  { eexists. split.
    - intros launch. unfold main.
      unfold bind at 1. erewrite inputStringOrNull_or_null by exact E.
      unfold bind at 1. erewrite inputStringOrNull_or_null by reflexivity.
      unfold bind at 1. erewrite inputStringOrDefault_or_default by reflexivity.
      unfold inputStringOrDefault. unfold bind at 1. unfold bind at 1.
      rewrite input_at_end by done. reflexivity.
    - by repeat split. }
  destruct rest as [|sm rest]; [|cbn [length] in L; lia].
  eexists. split.
  - intros launch. unfold main.
    unfold bind at 1. erewrite inputStringOrNull_or_null by exact E.
    unfold bind at 1. erewrite inputStringOrNull_or_null by reflexivity.
    unfold bind at 1. erewrite inputStringOrDefault_or_default by reflexivity.
    unfold bind at 1. erewrite inputStringOrDefault_or_default by reflexivity.
    unfold bind at 1. rewrite input_at_end by done. reflexivity.
  - by repeat split.
Qed.

(** X13. The end of the input during the questions of [main].  With fewer
    than five replies left, [main] ends with [EOFError] before it has asked
    the options: the rest of [main] does not run (whatever it is, the
    result is the same), no file is written, no request is sent and the
    options stay as they were. *)
Theorem main_at_end_of_input launch w :
  length (stdin w) < 5 ->
  snd (main float_of_str int_of_str str_of_float launch w) = Raise EOFError /\
  (forall launch',
     main float_of_str int_of_str str_of_float launch' w
     = main float_of_str int_of_str str_of_float launch w) /\
  outputFile (fst (main float_of_str int_of_str str_of_float launch w)) = outputFile w /\
  exchanges (fst (main float_of_str int_of_str str_of_float launch w)) = exchanges w /\
  requestOptions (fst (main float_of_str int_of_str str_of_float launch w)) = requestOptions w.
Proof.
  intros L. destruct (main_short w L) as (w' & M & O & X & R).
  rewrite (M launch). by repeat split.
Qed.

End MoreMain.

(** ** The further properties on examples *)

Lemma float_prompt_result_witness :
  let w := start_world [str "abc"; str "3.5"; str "1.5"; str "left"] [] in
  let r := inputFloatBetween decimal_float bound_str frequency_penalty_question
             (-2.0)%float 2.0%float true w in
  exists rejected final,
    stdin w = rejected ++ final :: stdin (fst r) /\
    Forall (float_rejected decimal_float (-2.0)%float 2.0%float true) rejected /\
    (whitespace_only final && true = false /\
     decimal_float final = Some 1.5%float /\
     out_of_range (-2.0)%float 2.0%float 1.5%float = false) /\
    length (stdout (fst r)) = length (stdout w) + 2 * length rejected + 1 /\
    same_files w (fst r).
Proof.
  intros w r.
  refine (float_prompt_result decimal_float bound_str frequency_penalty_question
    (-2.0)%float 2.0%float true w (fst r) (Some 1.5%float) _).
  vm_compute. reflexivity.
Defined.

Lemma int_prompt_result_witness :
  let w := start_world [str "many"; str "12"; str "left"] [] in
  let r := inputInt decimal_int max_tokens_question false w in
  exists rejected final,
    stdin w = rejected ++ final :: stdin (fst r) /\
    Forall (int_rejected decimal_int false) rejected /\
    (whitespace_only final && false = false /\ decimal_int final = Some 12%Z) /\
    length (stdout (fst r)) = length (stdout w) + 2 * length rejected + 1 /\
    same_files w (fst r).
Proof.
  intros w r.
  refine (int_prompt_result decimal_int max_tokens_question false w (fst r) (Some 12%Z) _).
  vm_compute. reflexivity.
Defined.

Lemma numeric_prompts_loop_for_ever_witness :
  snd (inputFloatBetween decimal_float bound_str temperature_question 0.0%float 2.0%float
         false (start_world [str ""; str "7"] []))
  = Diverge /\
  snd (inputInt decimal_int max_tokens_question true (start_world [str "x"; str "y"] []))
  = Diverge.
Proof.
  split.
  - refine (proj2 (proj1 (numeric_prompts_loop_for_ever decimal_float decimal_int
      bound_str temperature_question 0.0%float 2.0%float false
      (start_world [str ""; str "7"] []))) _).
    repeat (constructor; [split; vm_compute; auto|]). constructor.
  - refine (proj2 (proj2 (numeric_prompts_loop_for_ever decimal_float decimal_int
      bound_str max_tokens_question 0.0%float 2.0%float true
      (start_world [str "x"; str "y"] []))) _).
    repeat (constructor; [split; vm_compute; auto|]). constructor.
Defined.

Lemma float_prompt_takes_nan_witness :
  let w := start_world [str " nan "; str "left"] [] in
  inputFloatBetween decimal_float_or_nan bound_str temperature_question
    0.0%float 2.0%float true w
  = (prompted temperature_question [str "left"] w, Ret (Some nan)).
Proof.
  intros w.
  refine (float_prompt_takes_nan decimal_float_or_nan bound_str temperature_question
    0.0%float 2.0%float true (str " nan ") [str "left"] w _ _ _);
    vm_compute; reflexivity.
Defined.

Lemma options_at_end_of_input_witness :
  snd (getRequestOptions decimal_float decimal_int bound_str (start_world [] []))
  = Raise EOFError /\
  requestOptions
    (fst (getRequestOptions decimal_float decimal_int bound_str (start_world [] []))) = ∅.
Proof.
  refine (proj1 (proj2 (options_at_end_of_input decimal_float decimal_int bound_str
    (start_world [] []) eq_refl)) eq_refl).
Defined.

Lemma options_domain_and_ranges_witness :
  let r := getRequestOptions decimal_float decimal_int bound_str options_example_world in
  let options := requestOptions (fst r) in
  dom options ⊆ ({[ "model"; "frequency_penalty"; "max_tokens"; "presence_penalty";
                    "temperature" ]} : gset string) /\
  (exists model, options !! "model" = Some (VStr model) /\ model <> []) /\
  (forall v, options !! "frequency_penalty" = Some v ->
     exists x, v = VFloat x /\ out_of_range (-2.0)%float 2.0%float x = false) /\
  (forall v, options !! "max_tokens" = Some v -> exists n, v = VInt n) /\
  (forall v, options !! "presence_penalty" = Some v ->
     exists x, v = VFloat x /\ out_of_range (-2.0)%float 2.0%float x = false) /\
  (forall v, options !! "temperature" = Some v ->
     exists x, v = VFloat x /\ out_of_range 0.0%float 2.0%float x = false).
Proof.
  intros r options.
  refine (options_domain_and_ranges decimal_float decimal_int bound_str
    options_example_world (fst r) options eq_refl _).
  vm_compute. reflexivity.
Defined.

Lemma malformed_response_aborts_witness :
  let line := str "- Q: a" ++ [LF] in
  let w := ready_world [inr []] in
  line_step scripted_create decimal_float decimal_int bound_str [] line w
  = (asked line [] [] (inr []) w, Raise IndexError).
Proof.
  intros line w.
  refine (proj1 (malformed_response_aborts scripted_create decimal_float decimal_int
    bound_str [] line w [] (inr []) eq_refl (ready_world_options _) eq_refl) eq_refl).
Defined.

Example response_without_content :
  let r := run_driver None (str "- Q: a" ++ [LF] ++ str "tail" ++ [LF])
             (ready_world [inr [{| role := str "assistant"; content := None |}]]) in
  snd r = Raise AttributeError /\ outputFile (fst r) = [str "- Q: a" ++ [LF]].
Proof. vm_compute. auto. Qed.

Lemma requests_carry_history_witness :
  let w := ready_world sample_script in
  let w' := fst (run_driver brief sample_text w) in
  let questions := filter is_question (file_lines sample_text) in
  let calls := calls_since w w' in
  length calls = length questions /\
  (forall call : Exchange,
     calls !! 0 = Some call ->
     exists q,
       questions !! 0 = Some q /\
       history_of call = initial_messages brief ++ [user_entry q]) /\
  (forall (i : nat) (call call' : Exchange),
     calls !! i = Some call ->
     calls !! S i = Some call' ->
     exists a q,
       answer_of call = Some a /\ questions !! S i = Some q /\
       history_of call' = history_of call ++ [Message a; user_entry q]) /\
  (forall (i : nat) (call : Exchange),
     calls !! i = Some call ->
     exists q,
       questions !! i = Some q /\ last (history_of call) = Some (user_entry q) /\
       length (history_of call) = length (initial_messages brief) + 2 * i + 1 /\
       initial_messages brief `prefix_of` history_of call).
Proof.
  intros w w'.
  refine (requests_carry_history scripted_create decimal_float decimal_int bound_str
    brief sample_text w w' _).
  vm_compute. reflexivity.
Defined.

Example histories_of_sample :
  length <$> (history_of <$> exchanges (fst (run_driver brief sample_text
                                               (ready_world sample_script))))
  = [2; 4].
Proof. vm_compute. reflexivity. Qed.

Lemma one_options_for_all_requests_witness :
  let w := ready_world sample_script in
  let w' := fst (run_driver None sample_text w) in
  Forall (fun call => fst (fst call) = requestOptions w') (calls_since w w') /\
  (requestOptions w <> ∅ -> requestOptions w' = requestOptions w).
Proof.
  intros w w'.
  refine (one_options_for_all_requests scripted_create decimal_float decimal_int
    bound_str None sample_text w w' _).
  vm_compute. reflexivity.
Defined.

Lemma no_question_no_request_witness :
  let w := start_world [] [] in
  run_driver None notes_text w = (set_outputFile [str "# notes" ++ [LF]; str "end"] w, Ret tt) /\
  (filter is_answer (file_lines notes_text) = [] ->
   file_content (filter (fun l => negb (is_answer l)) (file_lines notes_text))
   = universal_newlines notes_text).
Proof.
  intros w.
  refine (no_question_no_request scripted_create decimal_float decimal_int bound_str
    None notes_text w _).
  vm_compute. reflexivity.
Defined.

Example plain_notes_copied :
  file_content (outputFile (fst (run_driver None plain_notes_text (start_world [] []))))
  = str "# notes" ++ [LF] ++ str "end".
Proof. vm_compute. reflexivity. Qed.

Lemma rerun_is_run_on_input_witness :
  let w1 := ready_world sample_script_again in
  let w1' := fst (run_driver None sample_text w1) in
  let w2 := ready_world sample_script in
  run_driver brief (file_content (outputFile w1')) w2
  = run_driver brief sample_text w2.
Proof.
  intros w1 w1' w2.
  refine (rerun_is_run_on_input scripted_create scripted_create decimal_float decimal_int
    bound_str None sample_text w1 w1' _ _ _ brief w2); vm_compute; reflexivity.
Defined.

Lemma main_asks_then_launches_witness :
  let w := start_world main_replies sample_script in
  let w' := fst (getRequestOptions decimal_float decimal_int bound_str
                   (after_questions (str "") (str "") (str "my test.md") (str "be brief")
                      [str ""; str ""; str "100"; str ""; str "0.5"] w)) in
  main decimal_float decimal_int bound_str sample_launch w
  = sample_launch (Some (str "sk-1")) None output_file_default (str "my test.md")
      (Some (str "be brief")) w' /\
  requestOptions w'
  = {[ "model" := VStr model_default; "max_tokens" := VInt 100;
       "temperature" := VFloat 0.5%float ]} /\
  requestOptions w' <> ∅ /\
  getRequestOptions decimal_float decimal_int bound_str w' = (w', Ret (requestOptions w')) /\
  outputFile w' = outputFile w /\ exchanges w' = exchanges w /\ client w' = client w.
Proof.
  intros w w'.
  assert (requestOptions w'
          = {[ "model" := VStr model_default; "max_tokens" := VInt 100;
               "temperature" := VFloat 0.5%float ]}) as E
    by (vm_compute; reflexivity).
  rewrite <- E.
  refine (main_asks_then_launches decimal_float decimal_int bound_str sample_launch
    (str " sk-1 ") (str "") (str "") (str "my test.md") (str "be brief")
    [str ""; str ""; str "100"; str ""; str "0.5"] w w' (requestOptions w') eq_refl _).
  vm_compute. reflexivity.
Defined.

Example main_run :
  let r := main decimal_float decimal_int bound_str sample_launch
             (start_world main_replies sample_script) in
  snd r = Ret tt /\ stdin (fst r) = [] /\ length (exchanges (fst r)) = 2.
Proof. vm_compute. auto. Qed.

Lemma main_at_end_of_input_witness :
  let w := start_world [str "key"; str ""] sample_script in
  snd (main decimal_float decimal_int bound_str sample_launch w) = Raise EOFError /\
  (forall launch',
     main decimal_float decimal_int bound_str launch' w
     = main decimal_float decimal_int bound_str sample_launch w) /\
  outputFile (fst (main decimal_float decimal_int bound_str sample_launch w))
  = outputFile w /\
  exchanges (fst (main decimal_float decimal_int bound_str sample_launch w))
  = exchanges w /\
  requestOptions (fst (main decimal_float decimal_int bound_str sample_launch w))
  = requestOptions w.
Proof.
  intros w.
  refine (main_at_end_of_input decimal_float decimal_int bound_str sample_launch w _).
  vm_compute. lia.
Defined.

Lemma run_prints_one_line_per_question_witness :
  let w := ready_world sample_script in
  let w' := fst (run_driver None sample_text w) in
  stdin w' = stdin w /\
  stdout w'
  = stdout w
    ++ ((fun q => str "generating answer for: " ++ strip (drop 5 q) ++ [LF])
          <$> filter is_question (file_lines sample_text)).
Proof.
  intros w w'.
  refine (run_prints_one_line_per_question scripted_create decimal_float decimal_int
    bound_str None sample_text w w' (ready_world_options _) _).
  vm_compute. reflexivity.
Defined.
